(** * FinSight audio pipeline: event handler and transcription components

    A shallow embedding of
    - [pipeline/audio-to-transcript/components/transcription.py]
      (module [Transcription]) and
    - [app/audio-event-handler/app.py] (module [AudioEventHandler]),
    with the properties of the specification proved over it.

    Conventions of the embedding.
    - A Python [str] is a Rocq [string], read as the UTF-8 bytes of the text.
      The helpers on strings ([lower], [strip], [split_words]) act on the
      ASCII range, which is where Python's versions act for ASCII text.
    - A Python [float] is carried as a rational ([Q]): arithmetic is exact,
      rounding, infinities and NaN are outside the model.
    - A Python exception is a value of [exn]; code that can raise returns
      [res]; code with effects runs in the monad [M] over an explicit state
      (the trace of effects, plus the module globals of the handler). *)

From Stdlib Require Import ZArith QArith Qround String Ascii List DecimalString Lia.
From stdpp Require Import base gmap strings list sorting.

#[local] Open Scope Z_scope.

(** ** Python values, exceptions and built-ins *)

Module Py.

(** Exceptions, by class; [exn_str] is [str(e)]. *)
Inductive exn : Type :=
| KeyError (key : string)
| TypeError (msg : string)
| AttributeError (msg : string)
| FileNotFoundError (msg : string)
| RuntimeError (msg : string)
| OtherError (cls msg : string).

Definition exn_str (e : exn) : string :=
  match e with
  | KeyError k => "'" +:+ k +:+ "'"
  | TypeError m | AttributeError m | FileNotFoundError m | RuntimeError m => m
  | OtherError _ m => m
  end.

(** The outcome of code that may raise. *)
Inductive res (A : Type) : Type :=
| Ok (a : A)
| Raise (e : exn).
Arguments Ok {A} a.
Arguments Raise {A} e.

Definition res_bind {A B} (r : res A) (k : A -> res B) : res B :=
  match r with Ok a => k a | Raise e => Raise e end.

Notation "'try!' x <- r ; k" := (res_bind r (fun x => k))
  (at level 10, x name, r at level 100, k at level 200).

Fixpoint res_map {A B} (f : A -> res B) (l : list A) : res (list B) :=
  match l with
  | [] => Ok []
  | x :: l' => try! y <- f x; try! ys <- res_map f l'; Ok (y :: ys)
  end.

(** *** Strings *)

Definition chars (s : string) : list ascii := list_ascii_of_string s.
Definition text (l : list ascii) : string := string_of_list_ascii l.

Definition lower_char (c : ascii) : ascii :=
  let n := N_of_ascii c in
  if ((65 <=? n) && (n <=? 90))%N then ascii_of_N (n + 32) else c.

(** [s.lower()] *)
Definition lower (s : string) : string := text (map lower_char (chars s)).

(** [s.startswith(p)] and [s.endswith(p)] *)
Definition startswith (s p : string) : bool := String.prefix p s.
Definition endswith (s p : string) : bool :=
  String.prefix (text (rev (chars p))) (text (rev (chars s))).

(** The characters [str.isspace] accepts in the ASCII range. *)
Definition is_space (c : ascii) : bool :=
  let n := N_of_ascii c in
  (((9 <=? n) && (n <=? 13)) || ((28 <=? n) && (n <=? 32)))%N.

Fixpoint lstrip_chars (p : ascii -> bool) (l : list ascii) : list ascii :=
  match l with
  | c :: l' => if p c then lstrip_chars p l' else l
  | [] => []
  end.

Definition rstrip_chars (p : ascii -> bool) (l : list ascii) : list ascii :=
  rev (lstrip_chars p (rev l)).

(** [s.strip()] *)
Definition strip (s : string) : string :=
  text (rstrip_chars is_space (lstrip_chars is_space (chars s))).

Definition is_slash (c : ascii) : bool := bool_decide (c = "/"%char).

(** [s.rstrip('/')] and [s.lstrip('/')] *)
Definition rstrip_slash (s : string) : string := text (rstrip_chars is_slash (chars s)).
Definition lstrip_slash (s : string) : string := text (lstrip_chars is_slash (chars s)).

(** [s.replace('/', '-')] *)
Definition replace_slash (s : string) : string :=
  text (map (fun c => if is_slash c then "-"%char else c) (chars s)).

(** The pieces of [l] between the characters that satisfy [p]
    ([cur] is the piece being read, reversed). *)
Fixpoint split_go (p : ascii -> bool) (cur : list ascii) (l : list ascii)
  : list (list ascii) :=
  match l with
  | [] => [rev cur]
  | c :: l' => if p c then rev cur :: split_go p [] l' else split_go p (c :: cur) l'
  end.

(** [s.split('/')] *)
Definition split_slash (s : string) : list string :=
  map text (split_go is_slash [] (chars s)).

(** [s.split()]: the maximal runs of non-space characters. *)
Definition split_words (s : string) : list string :=
  filter (fun w => w <> ""%string) (map text (split_go is_space [] (chars s))).

(** [pathlib.Path(s).name] on a POSIX system: the last component of the
    path, empty and ["."] components dropped. *)
Definition path_name (s : string) : string :=
  List.last (filter (fun c => c <> ""%string /\ c <> "."%string) (split_slash s)) ""%string.

(** [str(z)] for an [int]. *)
Definition str_of_int (z : Z) : string := NilZero.string_of_int (Z.to_int z).

(** [f"{z:02d}"] *)
Definition format_02d (z : Z) : string :=
  if (0 <=? z) && (z <? 10) then "0" +:+ str_of_int z else str_of_int z.

(** *** Scalar values *)

Inductive value : Type :=
| VNone
| VBool (b : bool)
| VInt (z : Z)
| VFloat (q : Q)
| VStr (s : string).

#[global] Instance Q_eq_dec : EqDecision Q.
Proof. solve_decision. Defined.
#[global] Instance value_eq_dec : EqDecision value.
Proof. solve_decision. Defined.

(** The numbers among the values; a [bool] is an [int]. *)
Inductive num : Type :=
| NInt (z : Z)
| NFloat (q : Q).

Definition as_num (v : value) : option num :=
  match v with
  | VBool b => Some (NInt (Z.b2z b))
  | VInt z => Some (NInt z)
  | VFloat q => Some (NFloat q)
  | VNone | VStr _ => None
  end.

Definition of_num (n : num) : value :=
  match n with NInt z => VInt z | NFloat q => VFloat q end.

Definition num_Q (n : num) : Q :=
  match n with NInt z => inject_Z z | NFloat q => q end.

Definition num_add (a b : num) : num :=
  match a, b with
  | NInt x, NInt y => NInt (x + y)
  | _, _ => NFloat (Qred (num_Q a + num_Q b))
  end.

Definition num_sub (a b : num) : num :=
  match a, b with
  | NInt x, NInt y => NInt (x - y)
  | _, _ => NFloat (Qred (num_Q a - num_Q b))
  end.

Definition Qltb (a b : Q) : bool :=
  match Qcompare a b with Lt => true | _ => false end.

Definition num_ltb (a b : num) : bool := Qltb (num_Q a) (num_Q b).

(** [bool(v)] *)
Definition truthy (v : value) : bool :=
  match v with
  | VNone => false
  | VBool b => b
  | VInt z => negb (z =? 0)
  | VFloat q => negb (Qeq_bool q 0)
  | VStr s => negb (String.eqb s "")
  end.

(** [type(v).__name__] *)
Definition type_name (v : value) : string :=
  match v with
  | VNone => "NoneType"
  | VBool _ => "bool"
  | VInt _ => "int"
  | VFloat _ => "float"
  | VStr _ => "str"
  end.

Definition unsupported (op : string) (a b : value) : exn :=
  TypeError ("unsupported operand type(s) for " +:+ op +:+ ": '" +:+ type_name a
             +:+ "' and '" +:+ type_name b +:+ "'").

(** [a + b] *)
Definition py_add (a b : value) : res value :=
  match as_num a, as_num b with
  | Some x, Some y => Ok (of_num (num_add x y))
  | _, _ =>
      match a, b with
      | VStr s, VStr t => Ok (VStr (s +:+ t))
      | _, _ => Raise (unsupported "+" a b)
      end
  end.

(** [a - b] *)
Definition py_sub (a b : value) : res value :=
  match as_num a, as_num b with
  | Some x, Some y => Ok (of_num (num_sub x y))
  | _, _ => Raise (unsupported "-" a b)
  end.

(** [a < b] *)
Definition py_lt (a b : value) : res bool :=
  match as_num a, as_num b with
  | Some x, Some y => Ok (num_ltb x y)
  | _, _ =>
      match a, b with
      | VStr s, VStr t => Ok (String.ltb s t)
      | _, _ =>
          Raise (TypeError ("'<' not supported between instances of '" +:+ type_name a
                            +:+ "' and '" +:+ type_name b +:+ "'"))
      end
  end.

(** [max(0.0, v)]: the first argument stays unless the second is greater. *)
Definition py_max_zero (v : value) : res value :=
  match as_num v with
  | Some x => Ok (if num_ltb (NFloat 0) x then v else VFloat 0)
  | None =>
      Raise (TypeError ("'>' not supported between instances of '" +:+ type_name v
                        +:+ "' and 'float'"))
  end.

(** [int(v // 60)]: floor division, then conversion of the whole result. *)
Definition int_floordiv_60 (v : value) : res Z :=
  match as_num v with
  | Some (NInt z) => Ok (z / 60)
  | Some (NFloat q) => Ok (Qfloor (q / 60))
  | None => Raise (unsupported "//" v (VInt 60))
  end.

(** [int(v % 60)]: the remainder lies in [0, 60), so [int] rounds it down. *)
Definition int_mod_60 (v : value) : res Z :=
  match as_num v with
  | Some (NInt z) => Ok (z mod 60)
  | Some (NFloat q) => Ok (Qfloor (q - inject_Z (60 * Qfloor (q / 60))))
  | None => Raise (unsupported "%" v (VInt 60))
  end.

(** [v / n] for an [int] [n] other than zero: true division. *)
Definition py_truediv_int (v : value) (n : Z) : res value :=
  match as_num v with
  | Some x => Ok (VFloat (Qred (num_Q x / inject_Z n)))
  | None => Raise (unsupported "/" v (VInt n))
  end.

(** [v.strip()] and [v.split()] exist on strings only. *)
Definition no_attribute (v : value) (attr : string) : exn :=
  AttributeError ("'" +:+ type_name v +:+ "' object has no attribute '" +:+ attr +:+ "'").

Definition py_strip (v : value) : res string :=
  match v with VStr s => Ok (strip s) | _ => Raise (no_attribute v "strip") end.

Definition py_split (v : value) : res (list string) :=
  match v with VStr s => Ok (split_words s) | _ => Raise (no_attribute v "split") end.

(** *** Dictionaries with string keys *)

Definition dict : Type := gmap string value.

(** [d.get(k, default)] *)
Definition get (d : gmap string value) (k : string) (default : value) : value :=
  match d !! k with Some v => v | None => default end.

(** [d[k]] *)
Definition getitem (d : gmap string value) (k : string) : res value :=
  match d !! k with Some v => Ok v | None => Raise (KeyError k) end.

End Py.

(** ** Effects: a state-and-exception monad *)

Module Eff.
Import Py.

Definition M (S A : Type) : Type := S -> res A * S.

Definition ret {S A} (a : A) : M S A := fun s => (Ok a, s).

Definition raise {S A} (e : exn) : M S A := fun s => (Raise e, s).

Definition lift {S A} (r : res A) : M S A := fun s => (r, s).

Definition bind {S A B} (m : M S A) (k : A -> M S B) : M S B :=
  fun s =>
    match m s with
    | (Ok a, s') => k a s'
    | (Raise e, s') => (Raise e, s')
    end.

(** [try: m  except Exception as e: handler e] *)
Definition try_except {S A} (m : M S A) (handler : exn -> M S A) : M S A :=
  fun s =>
    match m s with
    | (Ok a, s') => (Ok a, s')
    | (Raise e, s') => handler e s'
    end.

Notation "'do!' x <- m ; k" := (bind m (fun x => k))
  (at level 10, x name, m at level 100, k at level 200).

(** [for x in l: acc = body acc x] *)
Fixpoint for_loop {S A B} (body : B -> A -> M S B) (l : list A) (acc : B) : M S B :=
  match l with
  | [] => ret acc
  | x :: l' => do! acc' <- body acc x; for_loop body l' acc'
  end.

End Eff.

(** ** transcription.py *)

Module Transcription.
Import Py Eff.

(** *** The world of the component *)

(** One constructor per logging statement of the module, with the values
    its message is formatted from. *)
Inductive LogRecord : Type :=
| LogBatchStart (n : nat)
| LogApiUrl (api_url : string)
| LogModel (model : string)
| LogDemoMode
| LogDemoComplete (n : nat)
| LogAttemptFailed (attempt_no max_retries : Z) (segment_id : value) (e : exn)
| LogRetriesExhausted (segment_id : value)
| LogComplete (succeeded failed : nat)
| LogTranscriptSaved (output_path : string).

(** What the component does to the outside, in the order it does it. *)
Inductive Event : Type :=
| EvLog (r : LogRecord)
| EvOpenRead (file_path : value)
| EvChatCompletion (model audio : string)
| EvSleep (seconds : Q)
| EvMkdirParent (output_path : string)
| EvWriteFile (output_path content : string).

Definition Trace : Type := list Event.

(** What the outside answers, given all that happened before: the content
    of a file or the error of [open]/[read]; the text of the first choice
    of a chat completion ([response.choices[0].message.content]) or the
    error of the call; the outcome of creating a directory and of writing
    a file.  [float_repr] is the interpreter's [repr] of a float, which
    [str] and f-strings print. *)
Record Env : Type := {
  open_read : Trace -> value -> res string;
  chat_completion : Trace -> string -> string -> res value;
  mkdir_parent : Trace -> string -> res unit;
  write_file : Trace -> string -> string -> res unit;
  float_repr : Q -> string
}.

Definition emit (ev : Event) : M Trace unit := fun h => (Ok tt, h ++ [ev]).

Definition log (r : LogRecord) : M Trace unit := emit (EvLog r).

(** [time.sleep(seconds)]: a negative length is refused with [ValueError]
    before anything is slept. *)
Definition sleep (seconds : Q) : M Trace unit :=
  if Qltb seconds 0 then raise (OtherError "ValueError" "sleep length must be non-negative")
  else emit (EvSleep seconds).

(** A call to the outside: the event is recorded, the answer is the one
    the environment gives after the history so far. *)
Definition call {A} (ev : Event) (answer : Trace -> res A) : M Trace A :=
  fun h => (answer h, h ++ [ev]).

Section WithEnv.

Variable env : Env.

(** [str(v)], as f-strings use it. *)
Definition py_str (v : value) : string :=
  match v with
  | VNone => "None"
  | VBool true => "True"
  | VBool false => "False"
  | VInt z => str_of_int z
  | VFloat q => float_repr env q
  | VStr s => s
  end.

(** *** [base64.b64encode(data).decode('utf-8')] *)

Definition b64_alphabet : list ascii :=
  chars "ABCDEFGHIJKLMNOPQRSTUVWXYZabcdefghijklmnopqrstuvwxyz0123456789+/".

Definition b64_char (n : N) : ascii := nth (N.to_nat n) b64_alphabet "="%char.

Fixpoint b64_groups (l : list N) : list ascii :=
  match l with
  | [] => []
  | [a] => [b64_char (a / 4); b64_char ((a mod 4) * 16); "="%char; "="%char]
  | [a; b] =>
      [b64_char (a / 4); b64_char ((a mod 4) * 16 + b / 16);
       b64_char ((b mod 16) * 4); "="%char]
  | a :: b :: c :: l' =>
      b64_char (a / 4) :: b64_char ((a mod 4) * 16 + b / 16)
      :: b64_char ((b mod 16) * 4 + c / 64) :: b64_char (c mod 64)
      :: b64_groups l'
  end%N.

Definition b64encode (data : string) : string :=
  text (b64_groups (map N_of_ascii (chars data))).

(** *** [encode_audio_file_to_base64] *)

Definition encode_audio_file_to_base64 (file_path : value) : M Trace string :=
  try_except
    (do! audio_data <- call (EvOpenRead file_path) (fun h => open_read env h file_path);
     ret (b64encode audio_data))
    (fun e =>
       match e with
       | FileNotFoundError _ =>
           raise (FileNotFoundError ("Audio file not found: " +:+ py_str file_path))
       | _ =>
           raise (RuntimeError ("Error encoding audio file to base64: " +:+ exn_str e))
       end).

(** *** [transcribe_audio_segment] *)

(** The dictionary literal both return statements build. *)
Definition result_dict (segment_id text start_time end_time duration filename
                        success error : value) : gmap string value :=
  <["segment_id" := segment_id]> (<["text" := text]> (<["start_time" := start_time]>
  (<["end_time" := end_time]> (<["duration" := duration]> (<["filename" := filename]>
  (<["success" := success]> (<["error" := error]> ∅))))))).

Definition success_result (segment : gmap string value) (transcription_text : value)
  : gmap string value :=
  result_dict (get segment "segment_id" (VInt 0)) transcription_text
    (get segment "start_time" (VFloat 0)) (get segment "end_time" (VFloat 0))
    (get segment "duration" (VFloat 0)) (get segment "filename" (VStr ""))
    (VBool true) VNone.

Definition failure_result (segment : gmap string value) (e : exn) : gmap string value :=
  result_dict (get segment "segment_id" (VInt 0)) (VStr "")
    (get segment "start_time" (VFloat 0)) (get segment "end_time" (VFloat 0))
    (get segment "duration" (VFloat 0)) (get segment "filename" (VStr ""))
    (VBool false) (VStr (exn_str e)).

(** The body of the [try]: encode the file, call the endpoint, take the
    text of the first choice. *)
Definition attempt_body (segment : gmap string value) (model : string) : M Trace value :=
  do! encoded_audio <- encode_audio_file_to_base64 (get segment "path" (VStr ""));
  call (EvChatCompletion model encoded_audio)
       (fun h => chat_completion env h model encoded_audio).

(** [for attempt in range(max_retries)], with [n] iterations left. *)
Fixpoint retry_loop (segment : gmap string value) (model : string) (max_retries : Z)
    (retry_delay : Q) (n : nat) (attempt : Z) : M Trace (option (gmap string value)) :=
  match n with
  | O => ret None
  | S n' =>
      try_except
        (do! transcription_text <- attempt_body segment model;
         ret (Some (success_result segment transcription_text)))
        (fun e =>
           do! _ <- log (LogAttemptFailed (attempt + 1) max_retries
                      (get segment "segment_id" (VInt 0)) e);
           if attempt <? max_retries - 1 then
             do! _ <- sleep (retry_delay * inject_Z (attempt + 1));
             retry_loop segment model max_retries retry_delay n' (attempt + 1)
           else
             do! _ <- log (LogRetriesExhausted (get segment "segment_id" (VInt 0)));
             ret (Some (failure_result segment e)))
  end.

Definition transcribe_audio_segment (segment : gmap string value) (model : string)
    (max_retries : Z) (retry_delay : Q) : M Trace (option (gmap string value)) :=
  retry_loop segment model max_retries retry_delay (Z.to_nat max_retries) 0.

(** The default of the [retry_delay] parameter. *)
Definition default_retry_delay : Q := 2.

(** *** [batch_transcribe_segments] *)

(** The placeholder text of the demo mode. *)
Definition demo_text (segment_no filename : value) : string :=
  "[DEMO TRANSCRIPT] Segment " +:+ py_str segment_no +:+ " from file '"
  +:+ py_str filename +:+ "'. "
  +:+ "This is generated placeholder text to illustrate the final "
  +:+ "experience without calling the Voxtral API.".

(** The body of the loop of the demo mode: the placeholder result of a
    segment. *)
Definition demo_result (segment : gmap string value) : res (gmap string value) :=
  let segment_id := get segment "segment_id" (VInt 0) in
  try! filename <-
    (if truthy (get segment "filename" VNone) then Ok (get segment "filename" VNone)
     else match get segment "path" (VStr "") with
          | VStr p => Ok (VStr (path_name p))
          | v => Raise (TypeError ("expected str, bytes or os.PathLike object, not "
                                   +:+ type_name v))
          end);
  let start_time := get segment "start_time" (VFloat 0) in
  try! end_default <- py_add start_time (get segment "duration" (VFloat 0));
  let end_time := get segment "end_time" end_default in
  try! duration <-
    (if truthy (get segment "duration" VNone) then Ok (get segment "duration" VNone)
     else try! d <- py_sub end_time start_time; py_max_zero d);
  try! segment_no <- py_add segment_id (VInt 1);
  Ok (result_dict segment_id (VStr (demo_text segment_no filename))
        start_time end_time duration filename (VBool true) VNone).

(** One turn of the loop of the demo mode: the result joins the successes. *)
Definition demo_step (successful_transcriptions : list (gmap string value))
    (segment : gmap string value) : M Trace (list (gmap string value)) :=
  do! r <- lift (demo_result segment);
  ret (successful_transcriptions ++ [r]).

(** One turn of the loop of the live mode: [result and result['success']]
    selects the list, and [result or segment] is what joins the failures
    (an absent or empty result is falsy). *)
Definition live_step (model : string) (max_retries : Z)
    (acc : list (gmap string value) * list (gmap string value))
    (segment : gmap string value)
  : M Trace (list (gmap string value) * list (gmap string value)) :=
  let '(successful_transcriptions, failed_transcriptions) := acc in
  do! result <- transcribe_audio_segment segment model max_retries default_retry_delay;
  match result with
  | Some r =>
      if bool_decide (r = ∅)
      then ret (successful_transcriptions, failed_transcriptions ++ [segment])
      else
        do! success <- lift (getitem r "success");
        if truthy success
        then ret (successful_transcriptions ++ [r], failed_transcriptions)
        else ret (successful_transcriptions, failed_transcriptions ++ [r])
  | None => ret (successful_transcriptions, failed_transcriptions ++ [segment])
  end.

Definition batch_transcribe_segments (api_url api_key : string)
    (segments : list (gmap string value)) (model : string) (max_retries : Z)
    (show_progress : bool)
  : M Trace (list (gmap string value) * list (gmap string value)) :=
  do! _ <- log (LogBatchStart (length segments));
  do! _ <- log (LogApiUrl api_url);
  do! _ <- log (LogModel model);
  if String.eqb api_key "" then
    do! _ <- log LogDemoMode;
    do! successful_transcriptions <- for_loop demo_step segments [];
    do! _ <- log (LogDemoComplete (length successful_transcriptions));
    ret (successful_transcriptions, [])
  else
    do! r <- for_loop (live_step model max_retries) segments ([], []);
    do! _ <- log (LogComplete (length (fst r)) (length (snd r)));
    ret r.

(** *** [create_complete_transcript] *)

(** [sorted(l, key=...)] is a stable sort that compares keys with [<]:
    insertion from the right, where an element goes before the first one
    whose key is not smaller.  Every stable sort gives this list when [<]
    orders the keys. *)
Fixpoint insert_keyed (kx : value) (x : gmap string value)
    (l : list (value * gmap string value)) : res (list (value * gmap string value)) :=
  match l with
  | [] => Ok [(kx, x)]
  | (ky, y) :: l' =>
      try! smaller <- py_lt ky kx;
      if (smaller : bool) then try! r <- insert_keyed kx x l'; Ok ((ky, y) :: r)
      else Ok ((kx, x) :: (ky, y) :: l')
  end.

Fixpoint sort_keyed (l : list (value * gmap string value))
  : res (list (value * gmap string value)) :=
  match l with
  | [] => Ok []
  | (kx, x) :: l' => try! r <- sort_keyed l'; insert_keyed kx x r
  end.

(** [sorted(transcriptions, key=lambda x: x['segment_id'])] *)
Definition sorted_by_segment_id (transcriptions : list (gmap string value))
  : res (list (gmap string value)) :=
  try! keyed <- res_map (fun x => try! k <- getitem x "segment_id"; Ok (k, x)) transcriptions;
  try! r <- sort_keyed keyed;
  Ok (map snd r).

Definition nl : string := String (ascii_of_N 10) "".

(** ['\n'.join(lines)] *)
Fixpoint join_lines (lines : list string) : string :=
  match lines with
  | [] => ""
  | [l] => l
  | l :: ls => l +:+ nl +:+ join_lines ls
  end.

(** The two lines a segment adds to the transcript. *)
Definition segment_lines (trans : gmap string value) : res (list string) :=
  try! start_time <- getitem trans "start_time";
  try! end_time <- getitem trans "end_time";
  try! text_v <- getitem trans "text";
  try! text <- py_strip text_v;
  try! start_min <- int_floordiv_60 start_time;
  try! start_sec <- int_mod_60 start_time;
  try! end_min <- int_floordiv_60 end_time;
  try! end_sec <- int_mod_60 end_time;
  let timestamp :=
    "[" +:+ format_02d start_min +:+ ":" +:+ format_02d start_sec +:+ " - "
    +:+ format_02d end_min +:+ ":" +:+ format_02d end_sec +:+ "]" in
  Ok [nl +:+ timestamp; text].

(** The footer line with the duration, present when there is a segment. *)
Definition duration_lines (sorted_transcriptions : list (gmap string value))
  : res (list string) :=
  match last sorted_transcriptions with
  | None => Ok []
  | Some final =>
      try! total_duration <- getitem final "end_time";
      try! minutes <- int_floordiv_60 total_duration;
      try! seconds <- int_mod_60 total_duration;
      Ok ["Total duration: " +:+ str_of_int minutes +:+ ":" +:+ format_02d seconds]
  end.

(** The text of the transcript, from the sorted results. *)
Definition transcript_text (sorted_transcriptions : list (gmap string value))
  : res string :=
  try! body <- res_map segment_lines sorted_transcriptions;
  try! duration <- duration_lines sorted_transcriptions;
  Ok (join_lines
        (["=== EARNINGS CALL TRANSCRIPT ===" +:+ nl] ++ concat body
         ++ [nl +:+ nl +:+ "=== END TRANSCRIPT ===";
             nl +:+ "Total segments: "
             +:+ str_of_int (Z.of_nat (length sorted_transcriptions))]
         ++ duration)).

Definition create_complete_transcript (transcriptions : list (gmap string value))
    (output_path : option string) : M Trace string :=
  do! sorted_transcriptions <- lift (sorted_by_segment_id transcriptions);
  do! complete_transcript <- lift (transcript_text sorted_transcriptions);
  match output_path with
  | Some p =>
      if String.eqb p "" then ret complete_transcript
      else
        do! _ <- call (EvMkdirParent p) (fun h => mkdir_parent env h p);
        do! _ <- call (EvWriteFile p complete_transcript)
                   (fun h => write_file env h p complete_transcript);
        do! _ <- log (LogTranscriptSaved p);
        ret complete_transcript
  | None => ret complete_transcript
  end.

(** *** [create_transcript_metadata] *)

(** The dictionary the function returns, by key. *)
Record Metadata : Type := {
  source_audio : string;
  sample_rate : Z;
  total_segments : Z;
  total_duration : value;
  total_words : Z;
  avg_segment_duration : value;
  segments : list (gmap string value)
}.

Definition word_count (t : gmap string value) : res Z :=
  try! text_v <- getitem t "text";
  try! words <- py_split text_v;
  Ok (Z.of_nat (length words)).

Definition create_transcript_metadata (transcriptions : list (gmap string value))
    (audio_file : string) (sample_rate : Z) : res Metadata :=
  let total_segments := Z.of_nat (length transcriptions) in
  try! total_duration <-
    match last transcriptions with
    | Some final => getitem final "end_time"
    | None => Ok (VFloat 0)
    end;
  try! counts <- res_map word_count transcriptions;
  let total_words := fold_left Z.add counts 0 in
  try! avg <-
    (if 0 <? total_segments then py_truediv_int total_duration total_segments
     else Ok (VInt 0));
  Ok {| source_audio := audio_file;
        sample_rate := sample_rate;
        total_segments := total_segments;
        total_duration := total_duration;
        total_words := total_words;
        avg_segment_duration := avg;
        segments := transcriptions |}.

End WithEnv.

(** *** Reading a trace *)

(** Every attempt opens the audio file once, and nothing else does. *)
Definition is_attempt (ev : Event) : bool :=
  match ev with EvOpenRead _ => true | _ => false end.

Definition attempts_made (t : Trace) : nat := length (List.filter is_attempt t).

(** The calls that leave the machine. *)
Definition is_network_call (ev : Event) : bool :=
  match ev with EvChatCompletion _ _ => true | _ => false end.

(** The durations slept, in order. *)
Fixpoint sleeps (t : Trace) : list Q :=
  match t with
  | [] => []
  | EvSleep q :: t' => q :: sleeps t'
  | _ :: t' => sleeps t'
  end.

Definition total_sleep (t : Trace) : Q := fold_right Qplus 0%Q (sleeps t).

(** The failed attempts the trace reports: the number the warning prints
    ([attempt + 1]) and the error. *)
Fixpoint failed_attempts (t : Trace) : list (Z * exn) :=
  match t with
  | [] => []
  | EvLog (LogAttemptFailed attempt_no _ _ e) :: t' => (attempt_no, e) :: failed_attempts t'
  | _ :: t' => failed_attempts t'
  end.

(** *** The schema of segments and results *)

Definition absent_or (p : value -> bool) (d : gmap string value) (k : string) : bool :=
  match d !! k with Some v => p v | None => true end.

Definition is_int (v : value) : bool := match v with VInt _ => true | _ => false end.
Definition is_str (v : value) : bool := match v with VStr _ => true | _ => false end.
Definition is_number (v : value) : bool :=
  match v with VInt _ | VFloat _ => true | _ => false end.

(** A segment as the splitting stage makes it: an integer [segment_id],
    strings for [path] and [filename], numbers for the times; the code
    reads every key with a default, so each may be missing. *)
Definition segment_typed (s : gmap string value) : bool :=
  absent_or is_int s "segment_id" && absent_or is_str s "path"
  && absent_or is_str s "filename" && absent_or is_number s "start_time"
  && absent_or is_number s "end_time" && absent_or is_number s "duration".

Definition has (p : value -> bool) (d : gmap string value) (k : string) : bool :=
  match d !! k with Some v => p v | None => false end.

(** A transcription result: the keys the assembler and the metadata read. *)
Definition result_typed (r : gmap string value) : bool :=
  has is_int r "segment_id" && has is_str r "text"
  && has is_number r "start_time" && has is_number r "end_time".

(** [x['segment_id']] of a result whose id is an integer. *)
Definition segment_id_of (d : gmap string value) : Z :=
  match d !! "segment_id" with Some (VInt z) => z | _ => 0 end.

(** The file name the demo mode reports: the segment's [filename], or the
    last component of its [path] when the name is missing or empty. *)
Definition segment_filename (s : gmap string value) : string :=
  match s !! "filename" with
  | Some (VStr f) =>
      if String.eqb f "" then
        match s !! "path" with Some (VStr p) => path_name p | _ => "" end
      else f
  | _ => match s !! "path" with Some (VStr p) => path_name p | _ => "" end
  end.

Definition numeric (v : value) : Prop := is_number v = true.

(** *** The runs of the retry loop *)

(** The events of one attempt: the file read and, when the file could be
    encoded, the call of the endpoint. *)
Definition io_block (t : Trace) : Prop :=
  attempts_made t = 1%nat /\ sleeps t = [] /\ failed_attempts t = [] /\
  Forall (fun ev => is_attempt ev || is_network_call ev = true) t.

Section Runs.

Variable segment : gmap string value.
Variable max_retries : Z.
Variable retry_delay : Q.

(** The runs of the loop with [n] turns left, from the attempt of index
    [attempt], when no sleep is refused: the events added and the value
    returned. *)
Inductive run : nat -> Z -> Trace -> res (option (gmap string value)) -> Prop :=
| run_over attempt : run 0 attempt [] (Ok None)
| run_success n attempt ta transcription_text :
    io_block ta ->
    run (S n) attempt ta (Ok (Some (success_result segment transcription_text)))
| run_retry n attempt ta e t r :
    io_block ta -> attempt < max_retries - 1 ->
    run n (attempt + 1) t r ->
    run (S n) attempt
        (ta ++ EvLog (LogAttemptFailed (attempt + 1) max_retries
                        (get segment "segment_id" (VInt 0)) e)
            :: EvSleep (retry_delay * inject_Z (attempt + 1)) :: t) r
| run_exhausted n attempt ta e :
    io_block ta -> max_retries - 1 <= attempt ->
    run (S n) attempt
        (ta ++ [EvLog (LogAttemptFailed (attempt + 1) max_retries
                         (get segment "segment_id" (VInt 0)) e);
                EvLog (LogRetriesExhausted (get segment "segment_id" (VInt 0)))])
        (Ok (Some (failure_result segment e))).

End Runs.

(** *** The lists of a batch *)

(** What a segment can become in the lists the batch returns: itself, the
    result of a successful or of the last failed attempt, or its
    placeholder. *)
Definition outcome_of (env : Env) (segment out : gmap string value) : Prop :=
  out = segment \/
  (exists transcription_text, out = success_result segment transcription_text) \/
  (exists e, out = failure_result segment e) \/
  demo_result env segment = Ok out.

(** *** Sorting by integer keys *)

Definition key_of (p : value * gmap string value) : Z :=
  match p.1 with VInt z => z | _ => 0 end.

Definition int_keyed (p : value * gmap string value) : Prop := exists z, p.1 = VInt z.

Definition key_le (a b : value * gmap string value) : Prop := key_of a <= key_of b.

Definition keyed (x : gmap string value) : value * gmap string value :=
  (VInt (segment_id_of x), x).

End Transcription.

(** ** app.py: the audio event handler *)

Module AudioEventHandler.
Import Py Eff.

(** *** Values decoded from JSON *)

#[local] Set Warnings "-register-all".

Inductive json : Type :=
| JNull
| JBool (b : bool)
| JInt (z : Z)
| JFloat (q : Q)
| JStr (s : string)
| JList (l : list json)
| JDict (d : gmap string json).

(** [bool(v)] *)
Definition json_truthy (v : json) : bool :=
  match v with
  | JNull => false
  | JBool b => b
  | JInt z => negb (z =? 0)
  | JFloat q => negb (Qeq_bool q 0)
  | JStr s => negb (String.eqb s "")
  | JList l => match l with [] => false | _ => true end
  | JDict d => negb (bool_decide (d = ∅))
  end.

Definition json_type_name (v : json) : string :=
  match v with
  | JNull => "NoneType"
  | JBool _ => "bool"
  | JInt _ => "int"
  | JFloat _ => "float"
  | JStr _ => "str"
  | JList _ => "list"
  | JDict _ => "dict"
  end.

(** [v.get(k, default)]: only a dictionary has [get]. *)
Definition json_get (v : json) (k : string) (default : json) : res json :=
  match v with
  | JDict d => Ok (match d !! k with Some x => x | None => default end)
  | _ => Raise (AttributeError ("'" +:+ json_type_name v
                                +:+ "' object has no attribute 'get'"))
  end.

(** [v[0]], for a [v] that is truthy. *)
Definition json_first (v : json) : res json :=
  match v with
  | JList (x :: _) => Ok x
  | JList [] => Raise (OtherError "IndexError" "list index out of range")
  | JStr (String c _) => Ok (JStr (String c ""))
  | JStr "" => Raise (OtherError "IndexError" "string index out of range")
  | JDict _ => Raise (OtherError "KeyError" "0")
  | _ => Raise (TypeError ("'" +:+ json_type_name v +:+ "' object is not subscriptable"))
  end.

(** [for x in v]: the elements of a list, the characters of a string, the
    keys of a dictionary. *)
Definition json_iter (v : json) : res (list json) :=
  match v with
  | JList l => Ok l
  | JStr s => Ok (map (fun c => JStr (String c "")) (chars s))
  | JDict d => Ok (map (fun kv => JStr (fst kv)) (map_to_list d))
  | _ => Raise (TypeError ("'" +:+ json_type_name v +:+ "' object is not iterable"))
  end.

(** [v == s] for a string [s] *)
Definition json_eq_str (v : json) (s : string) : bool :=
  match v with JStr t => String.eqb t s | _ => false end.

(** [a or b] *)
Definition json_or (a b : json) : json := if json_truthy a then a else b.

(** A dictionary literal. *)
Definition obj (l : list (string * json)) : json := JDict (list_to_map l).

(** *** Configuration: the module constants read from the environment *)

Record Config : Type := {
  KFP_ENDPOINT : string;
  KFP_NAMESPACE : string;
  PIPELINE_NAME : string;
  EXPERIMENT_NAME : string;
  KFP_VERIFY_SSL : bool;
  KFP_SSL_CA_CERT : option string;
  KFP_REQUEST_TIMEOUT : Q;
  MINIO_ENDPOINT : string;
  MINIO_ACCESS_KEY : string;
  MINIO_SECRET_KEY : string;
  VOXTRAL_API_URL : string;
  VOXTRAL_API_KEY : string;
  VOXTRAL_MODEL : string;
  MILVUS_HOST : string;
  MILVUS_PORT : string;
  COLLECTION_NAME : string
}.

(** *** The world of the handler *)

(** [session.verify]: the default of the library, off, or a CA bundle. *)
Inductive Verify : Type :=
| VerifyDefault
| VerifyOff
| VerifyBundle (path : string).

Record Session : Type := {
  verify : Verify;
  headers : list (string * string)
}.

Record Request : Type := {
  req_method : string;
  req_url : string;
  req_params : list (string * json);
  req_json : option json;
  req_timeout : Q
}.

(** What comes back: the status, the body ([content] and [text]) and what
    [response.json()] gives, [None] when it raises [ValueError]. *)
Record Reply : Type := {
  status_code : Z;
  reply_text : string;
  reply_json : option json
}.

Inductive LogRecord : Type :=
| LogKfpFailed (method url : string) (status : Z) (response : string)
| LogJsonDecodeFailed (url : string)
| LogUsingExperiment (name : string) (id : json)
| LogCreatedExperiment (name : string) (id : json)
| LogResolvedPipeline (name : string) (id : json)
| LogRunCreated (run_name : string) (run_id : json) (bucket object : string)
| LogTriggerFailed (e : exn)
| LogReceived (type source subject : json)
| LogNoData
| LogMissingBucketOrKey (event_data : json)
| LogIgnoringBucket (bucket_name : json)
| LogIgnoringOutput (object_key : string)
| LogIgnoringNonAudio (object_key : string)
| LogProcessing (bucket object : string)
| LogHandlerError (e : exn).

Inductive Event : Type :=
| EvLog (r : LogRecord)
| EvRequest (session : Session) (request : Request).

(** The module globals and the trace of what the process did. *)
Record State : Type := {
  kfp_session : option Session;
  cached_pipeline_id : json;
  cached_experiment_id : json;
  trace : list Event
}.

Definition initial_state : State :=
  {| kfp_session := None; cached_pipeline_id := JNull;
     cached_experiment_id := JNull; trace := [] |}.

(** What the outside answers, given all that happened before: the reply to
    a request or the error of the transport, and the readings of the clock
    ([datetime.utcnow().isoformat()], [datetime.now().isoformat()] and
    [datetime.now().strftime('%Y%m%d-%H%M%S')]).  The library functions
    the handler calls on strings are taken as they are:
    [urllib.parse.unquote], [urllib.parse.urljoin], [json.dumps], and the
    [str] of a value that is not a string. *)
Record Env : Type := {
  send : list Event -> Session -> Request -> res Reply;
  utcnow_isoformat : list Event -> string;
  now_isoformat : list Event -> string;
  now_stamp : list Event -> string;
  unquote : string -> string;
  urljoin : string -> string -> string;
  json_dumps : json -> string;
  json_repr : json -> string
}.

Definition emit (ev : Event) : M State unit :=
  fun s => (Ok tt, {| kfp_session := kfp_session s;
                      cached_pipeline_id := cached_pipeline_id s;
                      cached_experiment_id := cached_experiment_id s;
                      trace := trace s ++ [ev] |}).

Definition log (r : LogRecord) : M State unit := emit (EvLog r).

Definition read {A} (f : State -> A) : M State A := fun s => (Ok (f s), s).

Definition set_kfp_session (x : Session) : M State unit :=
  fun s => (Ok tt, {| kfp_session := Some x;
                      cached_pipeline_id := cached_pipeline_id s;
                      cached_experiment_id := cached_experiment_id s;
                      trace := trace s |}).

Definition set_cached_pipeline_id (x : json) : M State unit :=
  fun s => (Ok tt, {| kfp_session := kfp_session s;
                      cached_pipeline_id := x;
                      cached_experiment_id := cached_experiment_id s;
                      trace := trace s |}).

Definition set_cached_experiment_id (x : json) : M State unit :=
  fun s => (Ok tt, {| kfp_session := kfp_session s;
                      cached_pipeline_id := cached_pipeline_id s;
                      cached_experiment_id := x;
                      trace := trace s |}).

(** *** Reading a state *)

(** The requests among the events. *)
Definition requests (t : list Event) : list Request :=
  omap (fun ev => match ev with EvRequest _ r => Some r | EvLog _ => None end) t.

(** Every run of [m] takes a state to one related by [R]. *)
Definition respects {A} (R : relation State) (m : M State A) : Prop :=
  forall s r s', m s = (r, s') -> R s s'.

(** The trace only grows. *)
Definition grows (s s' : State) : Prop := exists t, trace s' = trace s ++ t.

(** A slot of the state is left as it is. *)
Definition same {A} (slot : State -> A) (s s' : State) : Prop := slot s' = slot s.

(** A slot that holds an id keeps it. *)
Definition keeps (slot : State -> json) (s s' : State) : Prop :=
  json_truthy (slot s) = true -> slot s' = slot s.

Section WithEnv.

Variable cfg : Config.
Variable env : Env.

(** [str(v)], as f-strings use it. *)
Definition json_str (v : json) : string :=
  match v with JStr s => s | _ => json_repr env v end.

(** *** [_get_kfp_session] *)

(** The session the first call creates. *)
Definition new_session : Session :=
  {| verify := if negb (KFP_VERIFY_SSL cfg) then VerifyOff
               else match KFP_SSL_CA_CERT cfg with
                    | Some ca => if String.eqb ca "" then VerifyDefault
                                 else VerifyBundle ca
                    | None => VerifyDefault
                    end;
     headers := [("Content-Type", "application/json")] |}.

Definition _get_kfp_session : M State Session :=
  do! current <- read kfp_session;
  match current with
  | Some session => ret session
  | None =>
      do! _ <- set_kfp_session new_session;
      ret new_session
  end.

(** The session a call uses in a state. *)
Definition current_session (s : State) : Session :=
  match kfp_session s with Some session => session | None => new_session end.

(** *** [_kfp_request] *)

Definition upper_char (c : ascii) : ascii :=
  let n := N_of_ascii c in
  if ((97 <=? n) && (n <=? 122))%N then ascii_of_N (n - 32) else c.

(** [s.upper()] *)
Definition upper (s : string) : string := text (map upper_char (chars s)).

(** The request a call sends; without a [timeout] argument the configured
    one applies. *)
Definition kfp_request_of (method path : string) (params : list (string * json))
    (body : option json) (timeout : option Q) : Request :=
  {| req_method := upper method;
     req_url := urljoin env (rstrip_slash (KFP_ENDPOINT cfg) +:+ "/") (lstrip_slash path);
     req_params := params;
     req_json := body;
     req_timeout := match timeout with Some t => t | None => KFP_REQUEST_TIMEOUT cfg end |}.

(** [session.request(...)]: the request is recorded, the answer is the one
    the environment gives after the history so far. *)
Definition session_request (session : Session) (request : Request) : M State Reply :=
  fun s => let '(_, s') := emit (EvRequest session request) s in
           (send env (trace s) session request, s').

Definition _kfp_request (method path : string) (params : list (string * json))
    (body : option json) (timeout : option Q) : M State json :=
  let request := kfp_request_of method path params body timeout in
  let url := req_url request in
  do! session <- _get_kfp_session;
  do! response <- session_request session request;
  if 400 <=? status_code response then
    do! _ <- log (LogKfpFailed method url (status_code response) (reply_text response));
    raise (RuntimeError ("KFP API " +:+ upper method +:+ " " +:+ url +:+ " failed: "
                         +:+ str_of_int (status_code response) +:+ " - "
                         +:+ reply_text response))
  else if String.eqb (reply_text response) "" then ret (obj [])
  else
    match reply_json response with
    | Some v => ret v
    | None =>
        do! _ <- log (LogJsonDecodeFailed url);
        ret (obj [])
    end.

(** *** [_build_filter] *)

Definition _build_filter (display_name : string) : string :=
  json_dumps env
    (obj [("predicates",
           JList [obj [("key", JStr "display_name");
                       ("operation", JInt 1);
                       ("stringValue", JStr display_name)]])]).

(** *** [_get_or_create_experiment_id] *)

(** The query of the listing call. *)
Definition experiment_list_params : list (string * json) :=
  [("namespace", JStr (KFP_NAMESPACE cfg));
   ("filter", JStr (_build_filter (EXPERIMENT_NAME cfg)));
   ("page_size", JInt 1)].

Definition _get_or_create_experiment_id : M State json :=
  do! cached <- read cached_experiment_id;
  if json_truthy cached then ret cached
  else
    let params := experiment_list_params in
    do! experiments <- _kfp_request "GET" "/apis/v2beta1/experiments" params None None;
    do! found <- lift (json_get experiments "experiments" JNull);
    let items := json_or found (JList []) in
    if json_truthy items then
      do! first <- lift (json_first items);
      do! id <- lift (json_get first "experiment_id" JNull);
      do! _ <- set_cached_experiment_id id;
      do! _ <- log (LogUsingExperiment (EXPERIMENT_NAME cfg) id);
      ret id
    else
      do! stamp <- read (fun s => utcnow_isoformat env (trace s));
      let payload :=
        obj [("display_name", JStr (EXPERIMENT_NAME cfg));
             ("namespace", JStr (KFP_NAMESPACE cfg));
             ("description",
              JStr ("Auto-created by FinSight handler at " +:+ stamp +:+ "Z"))] in
      do! created <- _kfp_request "POST" "/apis/v2beta1/experiments" [] (Some payload) None;
      do! experiment_id <- lift (json_get created "experiment_id" JNull);
      if negb (json_truthy experiment_id) then
        raise (RuntimeError "Failed to create or retrieve experiment ID from KFP")
      else
        do! _ <- set_cached_experiment_id experiment_id;
        do! _ <- log (LogCreatedExperiment (EXPERIMENT_NAME cfg) experiment_id);
        ret experiment_id.

(** *** [_get_pipeline_id] *)

(** The loop over the listed pipelines; [None] when it runs to its end. *)
Fixpoint scan_pipelines (pipelines : list json) : M State (option json) :=
  match pipelines with
  | [] => ret None
  | pipeline :: rest =>
      do! dn <- lift (json_get pipeline "display_name" JNull);
      do! display_name <-
        (if json_truthy dn then ret dn else lift (json_get pipeline "name" JNull));
      if json_eq_str display_name (PIPELINE_NAME cfg) then
        do! pid <- lift (json_get pipeline "pipeline_id" JNull);
        do! pipeline_id <-
          (if json_truthy pid then ret pid
           else lift (json_get pipeline "pipelineVersionId" JNull));
        if json_truthy pipeline_id then
          do! _ <- set_cached_pipeline_id pipeline_id;
          do! _ <- log (LogResolvedPipeline (PIPELINE_NAME cfg) pipeline_id);
          ret (Some pipeline_id)
        else scan_pipelines rest
      else scan_pipelines rest
  end.

Definition _get_pipeline_id : M State json :=
  do! cached <- read cached_pipeline_id;
  if json_truthy cached then ret cached
  else
    let params := [("namespace", JStr (KFP_NAMESPACE cfg)); ("page_size", JInt 200)] in
    do! response <- _kfp_request "GET" "/apis/v2beta1/pipelines" params None None;
    do! listed <- lift (json_get response "pipelines" (JList []));
    do! pipelines <- lift (json_iter listed);
    do! found <- scan_pipelines pipelines;
    match found with
    | Some pipeline_id => ret pipeline_id
    | None =>
        raise (RuntimeError ("Pipeline '" +:+ PIPELINE_NAME cfg
                             +:+ "' not found in namespace '" +:+ KFP_NAMESPACE cfg +:+ "'"))
    end.

(** *** [trigger_pipeline] *)

(** [max(KFP_REQUEST_TIMEOUT, 90)] *)
Definition run_timeout : Q :=
  if Qltb (KFP_REQUEST_TIMEOUT cfg) 90 then 90 else KFP_REQUEST_TIMEOUT cfg.

Definition trigger_pipeline (bucket_name : json) (object_key : string) (event_time : json)
  : M State json :=
  try_except
    (do! experiment_id <- _get_or_create_experiment_id;
     do! pipeline_id <- _get_pipeline_id;
     let pipeline_params :=
       obj [("s3_bucket", bucket_name);
            ("s3_key", JStr object_key);
            ("s3_endpoint_url", JStr (MINIO_ENDPOINT cfg));
            ("s3_access_key", JStr (MINIO_ACCESS_KEY cfg));
            ("s3_secret_key", JStr (MINIO_SECRET_KEY cfg));
            ("voxtral_api_url", JStr (VOXTRAL_API_URL cfg));
            ("voxtral_api_key", JStr (VOXTRAL_API_KEY cfg));
            ("voxtral_model", JStr (VOXTRAL_MODEL cfg));
            ("milvus_host", JStr (MILVUS_HOST cfg));
            ("milvus_port", JStr (MILVUS_PORT cfg));
            ("collection_name", JStr (COLLECTION_NAME cfg))] in
     do! stamp <- read (fun s => now_stamp env (trace s));
     let run_name := "audio-" +:+ replace_slash object_key +:+ "-" +:+ stamp in
     let payload :=
       obj [("display_name", JStr run_name);
            ("pipeline_version_reference", obj [("pipeline_id", pipeline_id)]);
            ("runtime_config", obj [("parameters", pipeline_params)])] in
     do! response <-
       _kfp_request "POST" "/apis/v2beta1/runs" [("experiment_id", experiment_id)]
         (Some payload) (Some run_timeout);
     do! run_id <- lift (json_get response "run_id" JNull);
     do! _ <- log (LogRunCreated run_name run_id (json_str bucket_name) object_key);
     ret response)
    (fun e =>
       do! _ <- log (LogTriggerFailed e);
       raise e).

(** *** [handle_event] *)

(** The event as [from_http] hands it over. *)
Record CloudEvent : Type := {
  ce_type : json;
  ce_source : json;
  ce_subject : option json;
  ce_data : json
}.

(** What the handler returns: the status code and the JSON body. *)
Record Response : Type := {
  code : Z;
  body : list (string * json)
}.

Definition ignored (reason : string) : Response :=
  {| code := 200; body := [("status", JStr "ignored"); ("reason", JStr reason)] |}.

(** The bucket name, the object key and the event time of a notification,
    from the first record of [Records] or from the flat structure. *)
Definition locate (now : string) (event_data : json) : res (json * json * json) :=
  try! records <- json_get event_data "Records" (JList []);
  if negb (json_truthy records) then
    try! bucket <- json_get event_data "bucket" (obj []);
    try! bucket_name <- json_get bucket "name" JNull;
    try! object <- json_get event_data "object" (obj []);
    try! object_key <- json_get object "key" JNull;
    try! event_time <- json_get event_data "eventTime" (JStr now);
    Ok (bucket_name, object_key, event_time)
  else
    try! record <- json_first records;
    try! s3_info <- json_get record "s3" (obj []);
    try! bucket <- json_get s3_info "bucket" (obj []);
    try! bucket_name <- json_get bucket "name" JNull;
    try! object <- json_get s3_info "object" (obj []);
    try! object_key <- json_get object "key" JNull;
    try! event_time <- json_get record "eventTime" (JStr now);
    Ok (bucket_name, object_key, event_time).

(** [unquote(v)]: the library function on a string; anything else has no
    [split] or cannot be searched for ['%']. *)
Definition unquote_value (v : json) : res string :=
  match v with
  | JStr s => Ok (unquote env s)
  | JList _ | JDict _ =>
      Raise (AttributeError ("'" +:+ json_type_name v
                             +:+ "' object has no attribute 'split'"))
  | _ => Raise (TypeError ("argument of type '" +:+ json_type_name v
                           +:+ "' is not iterable"))
  end.

Definition audio_extensions : list string := [".mp3"; ".wav"; ".m4a"; ".flac"; ".ogg"].

Definition handle_event (request : res CloudEvent) : M State Response :=
  try_except
    (do! event <- lift request;
     do! _ <- log (LogReceived (ce_type event) (ce_source event)
                     (match ce_subject event with Some x => x | None => JStr "N/A" end));
     let event_data := ce_data event in
     if negb (json_truthy event_data) then
       do! _ <- log LogNoData;
       ret (ignored "no data")
     else
       do! now <- read (fun s => now_isoformat env (trace s));
       do! located <- lift (locate now event_data);
       let '(bucket_name, object_key, event_time) := located in
       if negb (json_truthy bucket_name) || negb (json_truthy object_key) then
         do! _ <- log (LogMissingBucketOrKey event_data);
         ret (ignored "invalid event structure")
       else
         do! object_key <- lift (unquote_value object_key);
         if negb (json_eq_str bucket_name "audio-inbox") then
           do! _ <- log (LogIgnoringBucket bucket_name);
           ret (ignored ("bucket " +:+ json_str bucket_name +:+ " not monitored"))
         else if startswith (lower object_key) "transcripts/" then
           do! _ <- log (LogIgnoringOutput object_key);
           ret (ignored "transcript artifacts are not ingested")
         else if negb (existsb (fun ext => endswith (lower object_key) ext)
                               audio_extensions) then
           do! _ <- log (LogIgnoringNonAudio object_key);
           ret (ignored "not an audio file")
         else
           do! _ <- log (LogProcessing (json_str bucket_name) object_key);
           do! run <- trigger_pipeline bucket_name object_key event_time;
           if json_truthy run then
             do! run_id <- lift (json_get run "run_id" JNull);
             ret {| code := 200;
                    body := [("status", JStr "success");
                             ("message", JStr "Pipeline triggered");
                             ("run_id", run_id);
                             ("bucket", bucket_name);
                             ("object", JStr object_key)] |}
           else
             ret {| code := 500;
                    body := [("status", JStr "error");
                             ("message", JStr "Failed to trigger pipeline")] |})
    (fun e =>
       do! _ <- log (LogHandlerError e);
       ret {| code := 500;
              body := [("status", JStr "error"); ("message", JStr (exn_str e))] |}).

End WithEnv.

End AudioEventHandler.

(** ** Sample data *)

Module Examples.
Import Py Eff.

(** *** A call in three segments *)

Definition segment_record (segment_id : Z) (path : string) (start_time end_time : Q)
  : gmap string value :=
  <["segment_id" := VInt segment_id]> (<["path" := VStr path]>
  (<["start_time" := VFloat start_time]> (<["end_time" := VFloat end_time]>
  (<["duration" := VFloat (Qred (end_time - start_time))]>
  (<["filename" := VStr (path_name path)]> ∅))))).

Definition opening : gmap string value :=
  segment_record 1 "/tmp/segments/segment_001.wav" 0 75.

Definition questions : gmap string value :=
  segment_record 2 "/tmp/segments/segment_002.wav" 75 140.

Definition closing : gmap string value :=
  segment_record 3 "/tmp/segments/segment_003.wav" 140 200.

(** A machine on which every segment file can be read, and an endpoint
    that refuses the audio of the second segment and transcribes the rest. *)
Definition studio : Transcription.Env :=
  {| Transcription.open_read := fun _ file_path =>
       match file_path with
       | VStr p => Ok ("RIFF " +:+ p)
       | _ => Raise (TypeError "expected str, bytes or os.PathLike object")
       end;
     Transcription.chat_completion := fun _ _ audio =>
       if String.eqb audio
            (Transcription.b64encode ("RIFF " +:+ "/tmp/segments/segment_002.wav"))
       then Raise (OtherError "APIConnectionError" "Connection error.")
       else Ok (VStr " Thank you all for joining the call. ");
     Transcription.mkdir_parent := fun _ _ => Ok tt;
     Transcription.write_file := fun _ _ _ => Ok tt;
     Transcription.float_repr := fun q => str_of_int (Qfloor q) +:+ ".0" |}.

(** Two results, whose ids give the order of the transcript. *)
Definition first_minute : gmap string value :=
  Transcription.result_dict (VInt 1) (VStr "good morning everyone") (VFloat 0) (VFloat 75)
    (VFloat 75) (VStr "segment_001.wav") (VBool true) VNone.

Definition second_minute : gmap string value :=
  Transcription.result_dict (VInt 2) (VStr "thank you operator") (VFloat 75) (VFloat 140)
    (VFloat 65) (VStr "segment_002.wav") (VBool true) VNone.

(** *** A deployment of the handler *)

(** The defaults of the module constants. *)
Definition deployment : AudioEventHandler.Config :=
  {| AudioEventHandler.KFP_ENDPOINT :=
       "https://ml-pipeline.finsight-agent.svc.cluster.local:8888";
     AudioEventHandler.KFP_NAMESPACE := "finsight-agent";
     AudioEventHandler.PIPELINE_NAME := "audio-transcription-pipeline";
     AudioEventHandler.EXPERIMENT_NAME := "Audio Transcription Runs";
     AudioEventHandler.KFP_VERIFY_SSL := false;
     AudioEventHandler.KFP_SSL_CA_CERT := None;
     AudioEventHandler.KFP_REQUEST_TIMEOUT := 60;
     AudioEventHandler.MINIO_ENDPOINT := "http://minio.minio.svc.cluster.local:9000";
     AudioEventHandler.MINIO_ACCESS_KEY := "minioadmin";
     AudioEventHandler.MINIO_SECRET_KEY := "minioadmin123";
     AudioEventHandler.VOXTRAL_API_URL := "https://api.scaleway.ai/v1";
     AudioEventHandler.VOXTRAL_API_KEY := "";
     AudioEventHandler.VOXTRAL_MODEL := "voxtral-small-24b-2507";
     AudioEventHandler.MILVUS_HOST := "milvus.finsight-agent.svc.cluster.local";
     AudioEventHandler.MILVUS_PORT := "19530";
     AudioEventHandler.COLLECTION_NAME := "earnings_call_transcripts" |}.

Definition hex_digit (c : ascii) : option N :=
  let n := N_of_ascii c in
  if ((48 <=? n) && (n <=? 57))%N then Some (n - 48)%N
  else if ((65 <=? n) && (n <=? 70))%N then Some (n - 55)%N
  else if ((97 <=? n) && (n <=? 102))%N then Some (n - 87)%N
  else None.

(** Percent-decoding, as [unquote] does it on a key whose escapes decode to
    UTF-8 text. *)
Fixpoint percent_decode_chars (l : list ascii) : list ascii :=
  match l with
  | [] => []
  | c :: l' =>
      if bool_decide (c = "%"%char) then
        match l' with
        | a :: b :: l'' =>
            match hex_digit a, hex_digit b with
            | Some x, Some y => ascii_of_N (16 * x + y) :: percent_decode_chars l''
            | _, _ => c :: percent_decode_chars l'
            end
        | _ => c :: percent_decode_chars l'
        end
      else c :: percent_decode_chars l'
  end.

Definition percent_decode (s : string) : string := text (percent_decode_chars (chars s)).

Definition answer (v : AudioEventHandler.json) : AudioEventHandler.Reply :=
  {| AudioEventHandler.status_code := 200;
     AudioEventHandler.reply_text := "{}";
     AudioEventHandler.reply_json := Some v |}.

(** An orchestration service that lists [experiments] when asked for the
    experiment, has the pipeline registered, and accepts every run. *)
Definition cluster (experiments : list AudioEventHandler.json) : AudioEventHandler.Env :=
  {| AudioEventHandler.send := fun _ _ request =>
       if String.eqb (AudioEventHandler.req_method request) "GET" then
         if endswith (AudioEventHandler.req_url request) "/experiments" then
           Ok (answer (AudioEventHandler.obj
                         [("experiments", AudioEventHandler.JList experiments)]))
         else
           Ok (answer (AudioEventHandler.obj
                         [("pipelines",
                           AudioEventHandler.JList
                             [AudioEventHandler.obj
                                [("display_name",
                                  AudioEventHandler.JStr "audio-transcription-pipeline");
                                 ("pipeline_id", AudioEventHandler.JStr "pipeline-42")]])]))
       else Ok (answer (AudioEventHandler.obj
                          [("run_id", AudioEventHandler.JStr "run-1")]));
     AudioEventHandler.utcnow_isoformat := fun _ => "2025-03-01T09:00:00";
     AudioEventHandler.now_isoformat := fun _ => "2025-03-01T10:00:00";
     AudioEventHandler.now_stamp := fun _ => "20250301-100000";
     AudioEventHandler.unquote := percent_decode;
     AudioEventHandler.urljoin := fun base path => base +:+ path;
     AudioEventHandler.json_dumps := fun _ => "{}";
     AudioEventHandler.json_repr := fun _ => "None" |}.

(** The listing of an experiment with its id, and of one without. *)
Definition listed_experiment : AudioEventHandler.json :=
  AudioEventHandler.obj
    [("display_name", AudioEventHandler.JStr "Audio Transcription Runs");
     ("experiment_id", AudioEventHandler.JStr "experiment-7")].

Definition experiment_without_id : gmap string AudioEventHandler.json :=
  {[ "display_name" := AudioEventHandler.JStr "Audio Transcription Runs" ]}.

(** A notification in the flat shape. *)
Definition notification (bucket key : string) : AudioEventHandler.CloudEvent :=
  {| AudioEventHandler.ce_type := AudioEventHandler.JStr "s3:ObjectCreated:Put";
     AudioEventHandler.ce_source := AudioEventHandler.JStr "minio";
     AudioEventHandler.ce_subject := None;
     AudioEventHandler.ce_data :=
       AudioEventHandler.obj
         [("bucket", AudioEventHandler.obj [("name", AudioEventHandler.JStr bucket)]);
          ("object", AudioEventHandler.obj [("key", AudioEventHandler.JStr key)])] |}.

End Examples.

(** ** Proofs *)

Ltac conj := repeat match goal with |- _ /\ _ => split end.

(** *** transcription.py *)

Module TranscriptionFacts.
Import Py Eff Transcription Examples.

Lemma attempts_made_app t1 t2 :
  attempts_made (t1 ++ t2) = (attempts_made t1 + attempts_made t2)%nat.
Proof. unfold attempts_made. by rewrite List.filter_app, length_app. Qed.

Lemma attempts_made_log r t : attempts_made (EvLog r :: t) = attempts_made t.
Proof. done. Qed.

Lemma attempts_made_sleep q t : attempts_made (EvSleep q :: t) = attempts_made t.
Proof. done. Qed.

Lemma attempts_made_nil : attempts_made [] = 0%nat.
Proof. done. Qed.

Lemma sleeps_app t1 t2 : sleeps (t1 ++ t2) = sleeps t1 ++ sleeps t2.
Proof.
  induction t1 as [|ev t1 IH]; [done|].
  destruct ev; simpl; rewrite IH; done.
Qed.

Lemma failed_attempts_app t1 t2 :
  failed_attempts (t1 ++ t2) = failed_attempts t1 ++ failed_attempts t2.
Proof.
  induction t1 as [|ev t1 IH]; [done|].
  destruct ev as [[]| | | | |]; simpl; rewrite IH; done.
Qed.

Lemma split_after {A} (l1 l2 pre post : list A) (x : A) :
  l1 ++ l2 = pre ++ x :: post -> x ∉ l1 ->
  exists pre2, pre = l1 ++ pre2 /\ l2 = pre2 ++ x :: post.
Proof.
  revert pre. induction l1 as [|a l1 IH]; intros pre E Hx.
  - exists pre. done.
  - destruct pre as [|b pre]; simpl in E.
    + injection E as -> _. exfalso. apply Hx. left.
    + injection E as -> E. destruct (IH pre E) as (pre2 & -> & ->).
      * intros ?. apply Hx. by right.
      * by exists pre2.
Qed.

Lemma io_block_no_sleep t q : io_block t -> EvSleep q ∉ t.
Proof.
  intros (_ & _ & _ & H) Hin. rewrite Forall_forall in H.
  specialize (H _ Hin). done.
Qed.

Section Retry.

Variable env : Env.

Lemma attempt_body_trace segment model h r h' :
  attempt_body env segment model h = (r, h') ->
  exists t, h' = h ++ t /\ io_block t.
Proof.
  unfold attempt_body, encode_audio_file_to_base64, bind, try_except, call, ret, raise.
  destruct (open_read env h (get segment "path" (VStr ""))) as [data|e] eqn:E.
  - intros [= <- <-]. eexists. rewrite <- app_assoc. split; [reflexivity|].
    repeat split; repeat constructor.
  - destruct e; intros [= <- <-]; eexists; (split; [reflexivity|]);
      repeat split; repeat constructor.
Qed.

Variable segment : gmap string value.
Variable model : string.
Variable max_retries : Z.
Variable retry_delay : Q.

Local Abbreviation sid := (get segment "segment_id" (VInt 0)).

(** The loop, one turn unfolded. *)
Lemma retry_loop_unfold n attempt h :
  retry_loop env segment model max_retries retry_delay (S n) attempt h =
  match attempt_body env segment model h with
  | (Ok transcription_text, h1) => (Ok (Some (success_result segment transcription_text)), h1)
  | (Raise e, h1) =>
      if attempt <? max_retries - 1 then
        if Qltb (retry_delay * inject_Z (attempt + 1)) 0 then
          (Raise (OtherError "ValueError" "sleep length must be non-negative"),
           h1 ++ [EvLog (LogAttemptFailed (attempt + 1) max_retries sid e)])
        else
          retry_loop env segment model max_retries retry_delay n (attempt + 1)
            (h1 ++ [EvLog (LogAttemptFailed (attempt + 1) max_retries sid e);
                    EvSleep (retry_delay * inject_Z (attempt + 1))])
      else
        (Ok (Some (failure_result segment e)),
         h1 ++ [EvLog (LogAttemptFailed (attempt + 1) max_retries sid e);
                EvLog (LogRetriesExhausted sid)])
  end.
Proof.
  simpl. unfold try_except at 1. unfold bind at 1.
  destruct (attempt_body env segment model h) as [[text|e] h1]; [done|].
  unfold bind at 1, log at 1, emit at 1.
  destruct (attempt <? max_retries - 1).
  - unfold bind at 1, sleep.
    destruct (Qltb (retry_delay * inject_Z (attempt + 1)) 0); [done|].
    unfold emit. by rewrite <- app_assoc.
  - unfold bind, log, emit, ret. by rewrite <- app_assoc.
Qed.

(** A delay that is not negative is never refused. *)
Lemma sleep_accepted attempt :
  (0 <= retry_delay)%Q -> 0 <= attempt ->
  Qltb (retry_delay * inject_Z (attempt + 1)) 0 = false.
Proof.
  intros Hdelay Hattempt. unfold Qltb.
  destruct (retry_delay * inject_Z (attempt + 1) ?= 0)%Q eqn:E; try done.
  apply Qlt_alt in E. exfalso. apply (Qlt_not_le _ _ E).
  apply Qmult_le_0_compat; [done|].
  change 0%Q with (inject_Z 0). rewrite <- Zle_Qle. lia.
Qed.

Hypothesis delay_not_negative : (0 <= retry_delay)%Q.

(** The turn when the delay is not negative. *)
Lemma retry_loop_step n attempt h :
  0 <= attempt ->
  retry_loop env segment model max_retries retry_delay (S n) attempt h =
  match attempt_body env segment model h with
  | (Ok transcription_text, h1) => (Ok (Some (success_result segment transcription_text)), h1)
  | (Raise e, h1) =>
      if attempt <? max_retries - 1 then
        retry_loop env segment model max_retries retry_delay n (attempt + 1)
          (h1 ++ [EvLog (LogAttemptFailed (attempt + 1) max_retries sid e);
                  EvSleep (retry_delay * inject_Z (attempt + 1))])
      else
        (Ok (Some (failure_result segment e)),
         h1 ++ [EvLog (LogAttemptFailed (attempt + 1) max_retries sid e);
                EvLog (LogRetriesExhausted sid)])
  end.
Proof.
  intros Hattempt. rewrite retry_loop_unfold.
  by rewrite (sleep_accepted attempt delay_not_negative Hattempt).
Qed.

Lemma retry_loop_run n : forall attempt h r h',
  0 <= attempt ->
  retry_loop env segment model max_retries retry_delay n attempt h = (r, h') ->
  exists t, h' = h ++ t /\ run segment max_retries retry_delay n attempt t r.
Proof.
  induction n as [|n IH]; intros attempt h r h' Hattempt.
  - intros [= <- <-]. exists []. rewrite app_nil_r. split; [done|constructor].
  - rewrite retry_loop_step by done.
    destruct (attempt_body env segment model h) as [[text|e] h1] eqn:E;
      apply attempt_body_trace in E as (ta & -> & Hta).
    + intros [= <- <-]. exists ta. split; [done|by constructor].
    + destruct (attempt <? max_retries - 1) eqn:Hlt.
      * intros Hrec. apply IH in Hrec as (t & -> & Hrun); [|lia].
        eexists. rewrite <- !app_assoc. split; [reflexivity|].
        simpl. apply run_retry; [done|lia|done].
      * intros [= <- <-]. eexists. rewrite <- !app_assoc. split; [reflexivity|].
        apply run_exhausted; [done|lia].
Qed.


Lemma run_sleep_after_failure n attempt t r :
  run segment max_retries retry_delay n attempt t r ->
  forall pre q post, t = pre ++ EvSleep q :: post ->
  exists pre' e i,
    attempt <= i < max_retries - 1 /\
    pre = pre' ++ [EvLog (LogAttemptFailed (i + 1) max_retries sid e)] /\
    Z.of_nat (attempts_made pre) = i - attempt + 1 /\
    q = (retry_delay * inject_Z (i + 1))%Q.
Proof.
  induction 1 as [attempt|n attempt ta text Hta|n attempt ta e t r Hta Hlt Hrun IH
                 |n attempt ta e Hta Hge]; intros pre q post E.
  - by destruct pre.
  - exfalso. apply (io_block_no_sleep ta q Hta). rewrite E.
    apply elem_of_app. right. left.
  - apply split_after in E as (pre2 & -> & E); [|by apply io_block_no_sleep].
    destruct pre2 as [|ev1 [|ev2 pre2]]; simpl in E; simplify_eq.
    + exists ta, e, attempt. conj; [lia|lia|done| |done].
      * rewrite attempts_made_app, attempts_made_log, attempts_made_nil.
        destruct Hta as (-> & _). lia.
    + destruct (IH _ _ _ eq_refl) as (pre' & e' & i & Hi & -> & Hn & ->).
      exists (ta ++ EvLog (LogAttemptFailed (attempt + 1) max_retries sid e)
                 :: EvSleep (retry_delay * inject_Z (attempt + 1)) :: pre'), e', i.
      conj; [lia|lia| | |done].
      * by rewrite <- app_assoc.
      * rewrite attempts_made_app, attempts_made_log, attempts_made_sleep.
        destruct Hta as (-> & _). lia.
  - exfalso. apply split_after in E as (pre2 & -> & E); [|by apply io_block_no_sleep].
    by destruct pre2 as [|ev1 [|ev2 [|ev3 pre2]]].
Qed.

Lemma run_exhaustion n attempt t r :
  run segment max_retries retry_delay n attempt t r ->
  attempt + Z.of_nat n = max_retries -> (1 <= n)%nat ->
  length (failed_attempts t) = n ->
  exists e,
    last (failed_attempts t) = Some (max_retries, e) /\
    r = Ok (Some (failure_result segment e)) /\
    attempts_made t = n /\
    last t = Some (EvLog (LogRetriesExhausted sid)) /\
    sleeps t = map (fun i => retry_delay * inject_Z (attempt + Z.of_nat i + 1))%Q
                   (seq 0 (n - 1)).
Proof.
  induction 1 as [attempt|n attempt ta text Hta|n attempt ta e t r Hta Hlt Hrun IH
                 |n attempt ta e Hta Hge]; intros Hsum Hn Hlen.
  - lia.
  - destruct Hta as (_ & _ & Hf & _). rewrite Hf in Hlen. done.
  - rewrite failed_attempts_app in Hlen. pose proof Hta as (Ha & Hs & Hf & _).
    rewrite Hf in Hlen. simpl in Hlen.
    destruct IH as (e' & Hlast & -> & Hatt & Hend & Hsl); [lia..|].
    exists e'. rewrite failed_attempts_app, attempts_made_app, sleeps_app, Hf, Ha, Hs.
    simpl. conj; [|done| | |].
    + destruct (failed_attempts t); [done|]. done.
    + rewrite attempts_made_log, attempts_made_sleep. lia.
    + rewrite last_app_cons, last_cons_cons. destruct t as [|ev t]; [done|].
      by rewrite last_cons_cons.
    + rewrite Hsl. destruct n as [|n]; [lia|]. simpl. rewrite Nat.sub_0_r.
      f_equal; [by rewrite Z.add_0_r|].
      rewrite <- seq_shift, map_map. apply map_ext. intros i.
      do 2 f_equal. lia.
  - rewrite failed_attempts_app in Hlen. pose proof Hta as (Ha & Hs & Hf & _).
    rewrite Hf in Hlen. simpl in Hlen. assert (n = 0%nat) as -> by lia.
    exists e. rewrite failed_attempts_app, attempts_made_app, sleeps_app, Hf, Ha, Hs.
    simpl. conj; [|done|done| |done].
    + do 2 f_equal. lia.
    + by rewrite last_app.
Qed.


Lemma run_outcome n attempt t r :
  run segment max_retries retry_delay n attempt t r ->
  r = Ok None \/
  (exists transcription_text, r = Ok (Some (success_result segment transcription_text))) \/
  (exists e, r = Ok (Some (failure_result segment e))).
Proof.
  induction 1; [by left|right; left; by eexists|done|right; right; by eexists].
Qed.

Lemma run_attempts_bound n attempt t r :
  run segment max_retries retry_delay n attempt t r -> (attempts_made t <= n)%nat.
Proof.
  induction 1 as [attempt|n attempt ta text Hta|n attempt ta e t r Hta Hlt Hrun IH
                 |n attempt ta e Hta Hge].
  - done.
  - destruct Hta as (-> & _). lia.
  - rewrite attempts_made_app, attempts_made_log, attempts_made_sleep.
    destruct Hta as (-> & _). lia.
  - rewrite attempts_made_app, attempts_made_log, attempts_made_log, attempts_made_nil.
    destruct Hta as (-> & _). lia.
Qed.

Lemma run_returns_result n attempt t r :
  run segment max_retries retry_delay n attempt t r -> attempt + Z.of_nat n = max_retries -> (1 <= n)%nat ->
  r <> Ok None.
Proof.
  induction 1; intros Hsum Hn; [lia|done| |done].
  apply IHrun; lia.
Qed.

End Retry.

Lemma result_dict_fields segment_id text_v start_time end_time duration filename success error :
  let r := result_dict segment_id text_v start_time end_time duration filename success error in
  r !! "segment_id" = Some segment_id /\ r !! "text" = Some text_v /\
  r !! "start_time" = Some start_time /\ r !! "end_time" = Some end_time /\
  r !! "duration" = Some duration /\ r !! "filename" = Some filename /\
  r !! "success" = Some success /\ r !! "error" = Some error.
Proof. unfold result_dict. conj; by simplify_map_eq. Qed.

(** C3.  In live mode, for every segment, every [max_retries >= 1] and
    every delay that is not negative (a negative one is refused by
    [time.sleep], which raises out of the call), a
    call of [transcribe_audio_segment] returns a record, after at most
    [max_retries] attempts, and adds events [t] to the trace such that:
    every sleep in [t] comes right after the warning of a failed
    attempt, the one of 0-based index [i] (the warning prints [i + 1], and
    [i + 1] attempts have been made by then), and lasts
    [retry_delay * (i + 1)]; and when all [max_retries] attempts have
    failed, the call returns a failure record with [success = False], the
    message of the last error, and the segment's id and times, after
    exactly [max_retries] attempts, the sleeps being
    [retry_delay * 1, ..., retry_delay * (max_retries - 1)] and the last
    event the report that the retries are exhausted. *)
Theorem failed_segment_backoff_and_record env segment model max_retries retry_delay h r h' :
  1 <= max_retries ->
  (0 <= retry_delay)%Q ->
  transcribe_audio_segment env segment model max_retries retry_delay h = (r, h') ->
  exists t, h' = h ++ t /\
    (exists record, r = Ok (Some record)) /\
    (attempts_made t <= Z.to_nat max_retries)%nat /\
    (forall pre q post, t = pre ++ EvSleep q :: post ->
       exists pre' e i,
         0 <= i < max_retries - 1 /\
         pre = pre' ++ [EvLog (LogAttemptFailed (i + 1) max_retries
                                 (get segment "segment_id" (VInt 0)) e)] /\
         attempts_made pre = S (Z.to_nat i) /\
         q = (retry_delay * inject_Z (i + 1))%Q) /\
    (length (failed_attempts t) = Z.to_nat max_retries ->
       exists e failed,
         last (failed_attempts t) = Some (max_retries, e) /\
         r = Ok (Some failed) /\
         failed !! "success" = Some (VBool false) /\
         failed !! "error" = Some (VStr (exn_str e)) /\
         failed !! "segment_id" = Some (get segment "segment_id" (VInt 0)) /\
         failed !! "start_time" = Some (get segment "start_time" (VFloat 0)) /\
         failed !! "end_time" = Some (get segment "end_time" (VFloat 0)) /\
         failed !! "duration" = Some (get segment "duration" (VFloat 0)) /\
         attempts_made t = Z.to_nat max_retries /\
         sleeps t = map (fun i => retry_delay * inject_Z (Z.of_nat i + 1))%Q
                        (seq 0 (Z.to_nat max_retries - 1)) /\
         last t = Some (EvLog (LogRetriesExhausted (get segment "segment_id" (VInt 0))))).
Proof.
  intros Hmax Hdelay Hrun. unfold transcribe_audio_segment in Hrun.
  apply (retry_loop_run env segment model max_retries retry_delay Hdelay) in Hrun
    as (t & -> & Hrun); [|lia].
  exists t. conj; [done| | | |].
  - pose proof (run_returns_result _ _ _ _ _ _ _ Hrun) as Hsome.
    destruct (run_outcome _ _ _ _ _ _ _ Hrun) as [->|[[text ->]|[e ->]]].
    + exfalso. apply Hsome; [lia|lia|done].
    + by eexists.
    + by eexists.
  - by eapply run_attempts_bound.
  - intros pre q post E.
    eapply run_sleep_after_failure in E as (pre' & e & i & Hi & -> & Hn & ->);
      [|exact Hrun].
    exists pre', e, i. conj; [lia|lia|done| |done]. lia.
  - intros Hlen.
    eapply run_exhaustion in Hlen as (e & Hlast & -> & Hatt & Hend & Hsl);
      [|exact Hrun|lia|lia].
    exists e, (failure_result segment e).
    pose proof (result_dict_fields (get segment "segment_id" (VInt 0)) (VStr "")
      (get segment "start_time" (VFloat 0)) (get segment "end_time" (VFloat 0))
      (get segment "duration" (VFloat 0)) (get segment "filename" (VStr ""))
      (VBool false) (VStr (exn_str e))) as F.
    cbv zeta in F. fold (failure_result segment e) in F.
    destruct F as (? & ? & ? & ? & ? & ? & ? & ?). conj; done.
Qed.

Lemma failed_segment_backoff_and_record_witness :
  1 <= 3 /\
  (0 <= 2)%Q /\
  exists t,
    (transcribe_audio_segment studio questions "voxtral-small-24b-2507" 3 2 []).2 = [] ++ t /\
    sleeps t = [(2 * inject_Z 1)%Q; (2 * inject_Z 2)%Q] /\
    attempts_made t = 3%nat /\
    exists failed,
      (transcribe_audio_segment studio questions "voxtral-small-24b-2507" 3 2 []).1
        = Ok (Some failed) /\
      failed !! "success" = Some (VBool false) /\
      failed !! "error" = Some (VStr "Connection error.").
Proof.
  assert (0 <= 2)%Q as Hdelay by done.
  split; [lia|]. split; [exact Hdelay|].
  destruct (failed_segment_backoff_and_record studio questions "voxtral-small-24b-2507"
              3 2 [] _ _ ltac:(lia) Hdelay (surjective_pairing _))
    as (t & Ht & _ & _ & _ & Hfail).
  exists t. split; [exact Ht|].
  assert (t = (transcribe_audio_segment studio questions "voxtral-small-24b-2507" 3 2 []).2)
    as Et by (symmetry; exact Ht).
  destruct Hfail as (e & failed & Hlast & Hr & Hs & He & _ & _ & _ & _ & Ha & Hsl & _).
  { rewrite Et. by vm_compute. }
  conj; [exact Hsl|exact Ha|].
  exists failed. conj; [exact Hr|exact Hs|].
  rewrite He. rewrite Et in Hlast. vm_compute in Hlast. by injection Hlast as <-.
Defined.

(** *** The batch *)

Lemma for_loop_cons {S A B} (body : B -> A -> M S B) x l acc s :
  for_loop body (x :: l) acc s =
  match body acc x s with
  | (Ok acc', s') => for_loop body l acc' s'
  | (Raise e, s') => (Raise e, s')
  end.
Proof. done. Qed.

Section Batch.

Variable env : Env.

Lemma result_dict_nonempty a b c d e f g i : result_dict a b c d e f g i <> ∅.
Proof.
  intros E. pose proof (result_dict_fields a b c d e f g i) as (H & _).
  rewrite E in H. done.
Qed.

(** The default delay is accepted by [time.sleep]. *)
Lemma default_retry_delay_not_negative : (0 <= default_retry_delay)%Q.
Proof. done. Qed.

(** A call whose delay is not negative never raises: it returns nothing, a
    success or a failure. *)
Lemma transcribe_audio_segment_returns segment model max_retries retry_delay h :
  (0 <= retry_delay)%Q ->
  exists r t,
    transcribe_audio_segment env segment model max_retries retry_delay h = (Ok r, h ++ t) /\
    (r = None \/
     (exists transcription_text, r = Some (success_result segment transcription_text)) \/
     (exists e, r = Some (failure_result segment e))).
Proof.
  intros Hdelay. unfold transcribe_audio_segment.
  destruct (retry_loop env segment model max_retries retry_delay
              (Z.to_nat max_retries) 0 h) as [r h'] eqn:E.
  apply (retry_loop_run env segment model max_retries retry_delay Hdelay) in E
    as (t & -> & Hrun); [|lia].
  apply run_outcome in Hrun as [->|[[text ->]|[e ->]]]; eexists _, t; (split; [done|]).
  - by left.
  - right; left; by eexists.
  - right; right; by eexists.
Qed.

Lemma success_result_success segment transcription_text :
  success_result segment transcription_text !! "success" = Some (VBool true).
Proof. unfold success_result. apply result_dict_fields. Qed.

Lemma failure_result_success segment e :
  failure_result segment e !! "success" = Some (VBool false).
Proof. unfold failure_result. apply result_dict_fields. Qed.

Lemma live_step_outcome model max_retries successes failures segment h :
  exists out t,
    outcome_of env segment out /\
    (live_step env model max_retries (successes, failures) segment h
       = (Ok (successes ++ [out], failures), h ++ t) \/
     live_step env model max_retries (successes, failures) segment h
       = (Ok (successes, failures ++ [out]), h ++ t)).
Proof.
  unfold live_step, bind.
  destruct (transcribe_audio_segment_returns segment model max_retries default_retry_delay h
              default_retry_delay_not_negative)
    as (r & t & -> & [->|[[text ->]|[e ->]]]).
  - exists segment, t. split; [by left|]. by right.
  - exists (success_result segment text), t. split; [right; left; by eexists|].
    pose proof (success_result_success segment text) as Hs.
    case_bool_decide as Hd; [rewrite Hd in Hs; done|].
    left. unfold lift, getitem. rewrite Hs. done.
  - exists (failure_result segment e), t. split; [right; right; left; by eexists|].
    pose proof (failure_result_success segment e) as Hs.
    case_bool_decide as Hd; [rewrite Hd in Hs; done|].
    right. unfold lift, getitem. rewrite Hs. done.
Qed.

Lemma live_loop_partition model max_retries segments : forall successes failures h,
  exists successes' failures' t outcomes,
    for_loop (live_step env model max_retries) segments (successes, failures) h
      = (Ok (successes ++ successes', failures ++ failures'), h ++ t) /\
    Forall2 (outcome_of env) segments outcomes /\
    successes' ++ failures' ≡ₚ outcomes /\
    successes' `sublist_of` outcomes /\
    failures' `sublist_of` outcomes.
Proof.
  induction segments as [|segment segments IH]; intros successes failures h.
  - exists [], [], [], []. rewrite !app_nil_r. by conj.
  - rewrite for_loop_cons.
    destruct (live_step_outcome model max_retries successes failures segment h)
      as (out & t & Hout & [->| ->]).
    + destruct (IH (successes ++ [out]) failures (h ++ t))
        as (s' & f' & t' & outs & -> & HF & HP & Hs & Hf).
      exists (out :: s'), f', (t ++ t'), (out :: outs). rewrite !app_assoc.
      conj; [by rewrite <- (app_assoc successes)|by constructor| | |].
      * simpl. by rewrite HP.
      * by apply sublist_skip.
      * by apply sublist_cons.
    + destruct (IH successes (failures ++ [out]) (h ++ t))
        as (s' & f' & t' & outs & -> & HF & HP & Hs & Hf).
      exists s', (out :: f'), (t ++ t'), (out :: outs). rewrite !app_assoc.
      conj; [by rewrite <- (app_assoc failures)|by constructor| | |].
      * rewrite <- HP. symmetry. apply Permutation_middle.
      * by apply sublist_cons.
      * by apply sublist_skip.
Qed.


(** **** The demo mode *)

Lemma get_typed p s k default :
  absent_or p s k = true -> p default = true -> p (get s k default) = true.
Proof. unfold absent_or, get. by destruct (s !! k). Qed.

Lemma py_add_numeric a b :
  numeric a -> numeric b -> exists v, py_add a b = Ok v /\ numeric v.
Proof.
  destruct a, b; try done; intros _ _; eexists; (split; [reflexivity|done]).
Qed.

Lemma py_sub_numeric a b :
  numeric a -> numeric b -> exists v, py_sub a b = Ok v /\ numeric v.
Proof.
  destruct a, b; try done; intros _ _; eexists; (split; [reflexivity|done]).
Qed.

Lemma py_max_zero_numeric a : numeric a -> exists v, py_max_zero a = Ok v.
Proof. destruct a; try done; intros _; by eexists. Qed.

Lemma demo_filename_typed s :
  absent_or is_str s "filename" = true -> absent_or is_str s "path" = true ->
  (if truthy (get s "filename" VNone) then Ok (get s "filename" VNone)
   else match get s "path" (VStr "") with
        | VStr p => Ok (VStr (path_name p))
        | v => Raise (TypeError ("expected str, bytes or os.PathLike object, not "
                                 +:+ type_name v))
        end) = Ok (VStr (segment_filename s)).
Proof.
  unfold absent_or, get, segment_filename.
  destruct (s !! "filename") as [[| | | |f]|]; try done;
    destruct (s !! "path") as [[| | | |p]|]; try done; simpl;
    try (destruct (String.eqb f ""); done).
Qed.

Lemma demo_result_typed s :
  segment_typed s = true ->
  exists start_time end_time duration,
    demo_result env s =
    Ok (result_dict (VInt (segment_id_of s))
          (VStr (demo_text env (VInt (segment_id_of s + 1)) (VStr (segment_filename s))))
          start_time end_time duration (VStr (segment_filename s)) (VBool true) VNone).
Proof.
  unfold segment_typed. rewrite !andb_true_iff.
  intros (((((Hid & Hpath) & Hname) & Hstart) & Hend) & Hdur).
  unfold demo_result. rewrite (demo_filename_typed s Hname Hpath). simpl res_bind.
  pose proof (get_typed _ _ _ (VFloat 0) Hstart eq_refl) as Ns.
  pose proof (get_typed _ _ _ (VFloat 0) Hdur eq_refl) as Nd.
  destruct (py_add_numeric _ _ Ns Nd) as (end_default & -> & Ne). simpl res_bind.
  pose proof (get_typed _ _ _ end_default Hend Ne) as Nend.
  assert (exists duration,
    (if truthy (get s "duration" VNone) then Ok (get s "duration" VNone)
     else try! d <- py_sub (get s "end_time" end_default) (get s "start_time" (VFloat 0));
          py_max_zero d) = Ok duration) as (duration & ->).
  { destruct (truthy (get s "duration" VNone)); [by eexists|].
    destruct (py_sub_numeric _ _ Nend Ns) as (d & -> & Hd). simpl.
    by apply py_max_zero_numeric. }
  simpl res_bind.
  assert (get s "segment_id" (VInt 0) = VInt (segment_id_of s)) as ->.
  { revert Hid. unfold absent_or, get, segment_id_of.
    by destruct (s !! "segment_id") as [[]|]. }
  simpl. by eexists _, _, _.
Qed.

Lemma demo_step_typed acc s (h : Trace) :
  segment_typed s = true ->
  exists r, demo_result env s = Ok r /\ demo_step env acc s h = (Ok (acc ++ [r]), h).
Proof.
  intros Hs. destruct (demo_result_typed s Hs) as (a & b & c & E).
  eexists. split; [exact E|]. unfold demo_step, bind, lift, ret. by rewrite E.
Qed.

Lemma demo_loop segments : forall acc (h : Trace),
  Forall (fun s => segment_typed s = true) segments ->
  exists results,
    for_loop (demo_step env) segments acc h = (Ok (acc ++ results), h) /\
    Forall2 (fun s r => demo_result env s = Ok r) segments results.
Proof.
  induction segments as [|s segments IH]; intros acc h Hty.
  - exists []. rewrite app_nil_r. by split.
  - apply Forall_cons in Hty as [Hs Hty]. rewrite for_loop_cons.
    destruct (demo_step_typed acc s h Hs) as (r & E & ->).
    destruct (IH (acc ++ [r]) h Hty) as (rs & -> & HF).
    exists (r :: rs). rewrite <- app_assoc. split; [done|]. by constructor.
Qed.


Lemma demo_result_inv s out :
  demo_result env s = Ok out ->
  exists text_v start_time end_time duration filename,
    out = result_dict (get s "segment_id" (VInt 0)) text_v start_time end_time duration
            filename (VBool true) VNone.
Proof.
  unfold demo_result, res_bind. intros E.
  repeat match type of E with
         | match ?x with _ => _ end = _ => destruct x eqn:?; try discriminate E
         end.
  all: injection E as <-; by eexists _, _, _, _, _.
Qed.

Lemma outcome_segment_id s out :
  outcome_of env s out -> get out "segment_id" (VInt 0) = get s "segment_id" (VInt 0).
Proof.
  intros [->|[[text ->]|[[e ->]|E]]]; [done| | |].
  - unfold success_result, get at 1.
    by destruct (result_dict_fields (get s "segment_id" (VInt 0)) text
      (get s "start_time" (VFloat 0)) (get s "end_time" (VFloat 0))
      (get s "duration" (VFloat 0)) (get s "filename" (VStr ""))
      (VBool true) VNone) as (-> & _).
  - unfold failure_result, get at 1.
    by destruct (result_dict_fields (get s "segment_id" (VInt 0)) (VStr "")
      (get s "start_time" (VFloat 0)) (get s "end_time" (VFloat 0))
      (get s "duration" (VFloat 0)) (get s "filename" (VStr ""))
      (VBool false) (VStr (exn_str e))) as (-> & _).
  - apply demo_result_inv in E as (a & b & c & d & f & ->). unfold get at 1.
    by destruct (result_dict_fields (get s "segment_id" (VInt 0)) a b c d f
      (VBool true) VNone) as (-> & _).
Qed.

(** The function, with its logging unfolded. *)
Lemma batch_transcribe_segments_eq api_url api_key segments model max_retries
    show_progress h :
  let h0 := h ++ [EvLog (LogBatchStart (length segments)); EvLog (LogApiUrl api_url);
                  EvLog (LogModel model)] in
  batch_transcribe_segments env api_url api_key segments model max_retries show_progress h =
  if String.eqb api_key "" then
    match for_loop (demo_step env) segments [] (h0 ++ [EvLog LogDemoMode]) with
    | (Ok successes, h1) =>
        (Ok (successes, []), h1 ++ [EvLog (LogDemoComplete (length successes))])
    | (Raise e, h1) => (Raise e, h1)
    end
  else
    match for_loop (live_step env model max_retries) segments ([], []) h0 with
    | (Ok r, h1) => (Ok r, h1 ++ [EvLog (LogComplete (length (fst r)) (length (snd r)))])
    | (Raise e, h1) => (Raise e, h1)
    end.
Proof.
  unfold batch_transcribe_segments, bind, log, emit, ret. cbv zeta.
  rewrite <- !app_assoc. simpl app.
  destruct (String.eqb api_key ""); [|done].
  by rewrite <- !app_assoc.
Qed.


Lemma eqb_empty_false (api_key : string) : api_key <> "" -> String.eqb api_key "" = false.
Proof. intros H. by apply String.eqb_neq. Qed.

Lemma partition_counts segments successes failures outcomes :
  Forall2 (outcome_of env) segments outcomes ->
  successes ++ failures ≡ₚ outcomes ->
  map (fun d => get d "segment_id" (VInt 0)) (successes ++ failures)
    ≡ₚ map (fun d => get d "segment_id" (VInt 0)) segments /\
  (length successes + length failures = length segments)%nat.
Proof.
  intros HF HP. split.
  - rewrite HP. clear HP. induction HF as [|s out segs outs Hout HF IH]; [done|].
    rewrite !map_cons, (outcome_segment_id _ _ Hout). by apply Permutation_cons.
  - rewrite <- length_app, HP. symmetry. by eapply Forall2_length.
Qed.

(** C1.  For every batch, in the demo mode (no key; the segments follow
    the schema) and in the live mode (any segments, any number of
    retries, whatever the outside answers), [batch_transcribe_segments]
    returns two lists that together hold exactly one outcome per input
    segment: the outcomes are a permutation of the two lists joined, each
    list keeps the order of the input, the ids of the entries are the ids
    of the segments, and the lengths add up to the number of segments. *)
Theorem batch_partitions_segments api_url api_key segments model max_retries
    show_progress h :
  (api_key = "" -> Forall (fun s => segment_typed s = true) segments) ->
  exists successes failures t outcomes,
    batch_transcribe_segments env api_url api_key segments model max_retries
      show_progress h = (Ok (successes, failures), h ++ t) /\
    Forall2 (outcome_of env) segments outcomes /\
    successes ++ failures ≡ₚ outcomes /\
    successes `sublist_of` outcomes /\
    failures `sublist_of` outcomes /\
    map (fun d => get d "segment_id" (VInt 0)) (successes ++ failures)
      ≡ₚ map (fun d => get d "segment_id" (VInt 0)) segments /\
    (length successes + length failures = length segments)%nat.
Proof.
  intros Hty. rewrite batch_transcribe_segments_eq. cbv zeta.
  pose proof (partition_counts segments) as Hfin.
  destruct (String.eqb api_key "") eqn:Hkey.
  - apply String.eqb_eq in Hkey. specialize (Hty Hkey).
    destruct (demo_loop segments [] (h ++
      [EvLog (LogBatchStart (length segments)); EvLog (LogApiUrl api_url);
       EvLog (LogModel model)] ++ [EvLog LogDemoMode]) Hty) as (rs & E & HF).
    rewrite app_assoc in E. rewrite E. simpl app at 1.
    exists rs, [], ([EvLog (LogBatchStart (length segments)); EvLog (LogApiUrl api_url);
                     EvLog (LogModel model); EvLog LogDemoMode;
                     EvLog (LogDemoComplete (length rs))]), rs.
    assert (Forall2 (outcome_of env) segments rs) as HO.
    { eapply Forall2_impl; [exact HF|]. intros s r Hr. by do 3 right. }
    rewrite <- !app_assoc. conj; [done|done|by rewrite app_nil_r|done|apply sublist_nil_l| |];
      apply (Hfin rs [] rs HO); by rewrite app_nil_r.
  - destruct (live_loop_partition model max_retries segments [] [] (h ++
      [EvLog (LogBatchStart (length segments)); EvLog (LogApiUrl api_url);
       EvLog (LogModel model)])) as (s' & f' & t & outs & -> & HF & HP & Hs & Hf).
    simpl app. eexists s', f', _, outs. rewrite <- !app_assoc.
    conj; [done|done|done|done|done| |]; by apply (Hfin s' f' outs).
Qed.

(** C5, as amended.  Without an API key, for every list of segments that
    follow the schema, [batch_transcribe_segments] returns one success per
    segment and no failure; the trace gains five log records and nothing
    else (no file is opened, no call leaves the machine); the text of each
    success is the placeholder with the number [segment_id + 1] (the
    segment's id plus one, whatever its place in the batch) and its file
    name. *)
Theorem demo_mode_placeholders api_url segments model max_retries show_progress h :
  Forall (fun s => segment_typed s = true) segments ->
  exists successes,
    batch_transcribe_segments env api_url "" segments model max_retries show_progress h
    = (Ok (successes, []),
       h ++ [EvLog (LogBatchStart (length segments)); EvLog (LogApiUrl api_url);
             EvLog (LogModel model); EvLog LogDemoMode;
             EvLog (LogDemoComplete (length segments))]) /\
    length successes = length segments /\
    Forall2 (fun s r =>
      r !! "text" = Some (VStr
        ("[DEMO TRANSCRIPT] Segment " +:+ str_of_int (segment_id_of s + 1)
         +:+ " from file '" +:+ segment_filename s
         +:+ "'. This is generated placeholder text to illustrate the final experience without calling the Voxtral API.")) /\
      r !! "segment_id" = Some (VInt (segment_id_of s)) /\
      r !! "filename" = Some (VStr (segment_filename s)) /\
      r !! "success" = Some (VBool true) /\
      r !! "error" = Some VNone) segments successes.
Proof.
  intros Hty. rewrite batch_transcribe_segments_eq. cbv zeta.
  change (String.eqb "" "") with true. cbv iota.
  destruct (demo_loop segments [] ((h ++
      [EvLog (LogBatchStart (length segments)); EvLog (LogApiUrl api_url);
       EvLog (LogModel model)]) ++ [EvLog LogDemoMode]) Hty) as (rs & -> & HF).
  simpl app at 1. exists rs.
  assert (length rs = length segments) as Hlen by (symmetry; by eapply Forall2_length).
  change ([] ++ rs) with rs. rewrite Hlen, <- !app_assoc. conj; [done|done|].
  clear Hlen. induction HF as [|s r segs rs' Hr HF IH]; [done|].
  apply Forall_cons in Hty as [Hs Hty]. constructor; [|by apply IH].
  destruct (demo_result_typed s Hs) as (a & b & c & E). rewrite E in Hr.
  injection Hr as <-.
  destruct (result_dict_fields (VInt (segment_id_of s))
    (VStr (demo_text env (VInt (segment_id_of s + 1)) (VStr (segment_filename s))))
    a b c (VStr (segment_filename s)) (VBool true) VNone)
    as (? & ? & _ & _ & _ & ? & ? & ?).
  conj; done.
Qed.

(** C9.  In live mode with [max_retries = 0], [transcribe_audio_segment]
    returns [None] for every segment and leaves the trace as it is, and
    [batch_transcribe_segments] returns no success and, as failures, the
    segment dictionaries themselves, so an entry has a [text], [success]
    or [error] key only if the segment had one; the two lengths still add
    up to the number of segments. *)
Theorem zero_retries_fail_raw_segments api_url api_key segments model show_progress
    retry_delay h :
  api_key <> "" ->
  (forall segment h0,
     transcribe_audio_segment env segment model 0 retry_delay h0 = (Ok None, h0)) /\
  exists successes failures t,
    batch_transcribe_segments env api_url api_key segments model 0 show_progress h
    = (Ok (successes, failures), h ++ t) /\
    successes = [] /\ failures = segments /\
    attempts_made t = 0%nat /\
    Forall (fun ev => is_network_call ev = false) t /\
    (length successes + length failures = length segments)%nat /\
    (Forall (fun s => s !! "text" = None /\ s !! "success" = None /\ s !! "error" = None)
       segments ->
     Forall (fun s => s !! "text" = None /\ s !! "success" = None /\ s !! "error" = None)
       failures).
Proof.
  intros Hkey. split; [done|].
  rewrite batch_transcribe_segments_eq. cbv zeta. rewrite (eqb_empty_false _ Hkey).
  assert (forall segs failures (h0 : Trace),
    for_loop (live_step env model 0) segs ([], failures) h0
    = (Ok ([], failures ++ segs), h0)) as Hloop.
  { induction segs as [|s segs IH]; intros failures h0.
    - by rewrite app_nil_r.
    - rewrite for_loop_cons.
      replace (live_step env model 0 ([], failures) s h0)
        with (Ok (@nil (gmap string value), failures ++ [s]), h0) by done.
      by rewrite IH, <- app_assoc. }
  rewrite Hloop. simpl.
  eexists [], segments, _. rewrite <- !app_assoc. conj; try done.
  repeat constructor.
Qed.


(** **** A batch of three with the middle segment failing *)

Lemma first_attempt_succeeds segment model max_retries retry_delay h transcription_text h1 :
  1 <= max_retries ->
  attempt_body env segment model h = (Ok transcription_text, h1) ->
  transcribe_audio_segment env segment model max_retries retry_delay h
  = (Ok (Some (success_result segment transcription_text)), h1).
Proof.
  intros Hmax E. unfold transcribe_audio_segment.
  destruct (Z.to_nat max_retries) as [|n] eqn:Hn; [lia|].
  by rewrite retry_loop_unfold, E.
Qed.

Lemma two_attempts_fail segment model retry_delay h e1 h1 e2 h2 :
  (0 <= retry_delay)%Q ->
  attempt_body env segment model h = (Raise e1, h1) ->
  attempt_body env segment model
    (h1 ++ [EvLog (LogAttemptFailed 1 2 (get segment "segment_id" (VInt 0)) e1);
            EvSleep (retry_delay * inject_Z 1)]) = (Raise e2, h2) ->
  transcribe_audio_segment env segment model 2 retry_delay h
  = (Ok (Some (failure_result segment e2)),
     h2 ++ [EvLog (LogAttemptFailed 2 2 (get segment "segment_id" (VInt 0)) e2);
            EvLog (LogRetriesExhausted (get segment "segment_id" (VInt 0)))]).
Proof.
  intros Hdelay E1 E2. unfold transcribe_audio_segment.
  change (Z.to_nat 2) with 2%nat.
  rewrite (retry_loop_step env segment model 2 retry_delay Hdelay) by done.
  rewrite E1. change (0 <? 2 - 1) with true. cbv iota.
  change (0 + 1) with 1.
  rewrite (retry_loop_step env segment model 2 retry_delay Hdelay) by done.
  by rewrite E2.
Qed.

Lemma live_step_success model max_retries successes failures segment h text h1 :
  transcribe_audio_segment env segment model max_retries default_retry_delay h
    = (Ok (Some (success_result segment text)), h1) ->
  live_step env model max_retries (successes, failures) segment h
    = (Ok (successes ++ [success_result segment text], failures), h1).
Proof.
  intros E. unfold live_step, bind. rewrite E.
  pose proof (success_result_success segment text) as Hs.
  case_bool_decide as Hd; [rewrite Hd in Hs; done|].
  unfold lift, getitem. by rewrite Hs.
Qed.

Lemma live_step_failure model max_retries successes failures segment h e h1 :
  transcribe_audio_segment env segment model max_retries default_retry_delay h
    = (Ok (Some (failure_result segment e)), h1) ->
  live_step env model max_retries (successes, failures) segment h
    = (Ok (successes, failures ++ [failure_result segment e]), h1).
Proof.
  intros E. unfold live_step, bind. rewrite E.
  pose proof (failure_result_success segment e) as Hs.
  case_bool_decide as Hd; [rewrite Hd in Hs; done|].
  unfold lift, getitem. by rewrite Hs.
Qed.

Lemma segment_id_of_success segment text z :
  segment !! "segment_id" = Some (VInt z) -> segment_id_of (success_result segment text) = z.
Proof.
  intros H. unfold segment_id_of, success_result.
  destruct (result_dict_fields (get segment "segment_id" (VInt 0)) text
      (get segment "start_time" (VFloat 0)) (get segment "end_time" (VFloat 0))
      (get segment "duration" (VFloat 0)) (get segment "filename" (VStr ""))
      (VBool true) VNone) as (-> & _).
  unfold get. by rewrite H.
Qed.

Lemma segment_id_of_failure segment e z :
  segment !! "segment_id" = Some (VInt z) -> segment_id_of (failure_result segment e) = z.
Proof.
  intros H. unfold segment_id_of, failure_result.
  destruct (result_dict_fields (get segment "segment_id" (VInt 0)) (VStr "")
      (get segment "start_time" (VFloat 0)) (get segment "end_time" (VFloat 0))
      (get segment "duration" (VFloat 0)) (get segment "filename" (VStr ""))
      (VBool false) (VStr (exn_str e))) as (-> & _).
  unfold get. by rewrite H.
Qed.

(** C4, as amended.  In live mode with [max_retries = 2] and three
    segments with the ids 1, 2 and 3, where every attempt on the second
    fails with an error that has a message and the first attempt on each
    of the others succeeds: the successes are the results of the ids 1 and
    3, the failures are one entry of id 2 that carries the message of the
    last error, and the batch sleeps once, after the first failed attempt,
    for [retry_delay * 1]; no sleep follows the last attempt. *)
Theorem middle_segment_fails_both_attempts api_url api_key s1 s2 s3 model show_progress h :
  api_key <> "" ->
  s1 !! "segment_id" = Some (VInt 1) ->
  s2 !! "segment_id" = Some (VInt 2) ->
  s3 !! "segment_id" = Some (VInt 3) ->
  (forall h0, exists transcription_text,
     (attempt_body env s1 model h0).1 = Ok transcription_text) ->
  (forall h0, exists e, (attempt_body env s2 model h0).1 = Raise e /\ exn_str e <> "") ->
  (forall h0, exists transcription_text,
     (attempt_body env s3 model h0).1 = Ok transcription_text) ->
  exists successes failed t,
    batch_transcribe_segments env api_url api_key [s1; s2; s3] model 2 show_progress h
    = (Ok (successes, [failed]), h ++ t) /\
    map segment_id_of successes = [1; 3] /\
    Forall (fun r => r !! "success" = Some (VBool true)) successes /\
    segment_id_of failed = 2 /\
    failed !! "success" = Some (VBool false) /\
    (exists e, last (failed_attempts t) = Some (2, e) /\
               failed !! "error" = Some (VStr (exn_str e)) /\ exn_str e <> "") /\
    map fst (failed_attempts t) = [1; 2] /\
    sleeps t = [(default_retry_delay * inject_Z 1)%Q] /\
    (total_sleep t == default_retry_delay * 1)%Q.
Proof.
  intros Hkey Hid1 Hid2 Hid3 H1 H2 H3.
  rewrite batch_transcribe_segments_eq. cbv zeta. rewrite (eqb_empty_false _ Hkey).
  set (h0 := h ++ _).
  (* segment 1 *)
  destruct (attempt_body env s1 model h0) as [r1 h1] eqn:E1.
  destruct (H1 h0) as (text1 & Hr1). rewrite E1 in Hr1. simpl in Hr1. subst r1.
  pose proof E1 as T1. apply attempt_body_trace in T1 as (ta1 & -> & B1).
  rewrite for_loop_cons.
  rewrite (live_step_success model 2 [] [] s1 h0 text1 (h0 ++ ta1));
    [|by apply first_attempt_succeeds].
  (* segment 2, first attempt *)
  destruct (attempt_body env s2 model (h0 ++ ta1)) as [r2 h2] eqn:E2.
  destruct (H2 (h0 ++ ta1)) as (e1 & Hr2 & _). rewrite E2 in Hr2. simpl in Hr2. subst r2.
  pose proof E2 as T2. apply attempt_body_trace in T2 as (ta2 & -> & B2).
  (* segment 2, second attempt *)
  set (h2 := (h0 ++ ta1) ++ ta2) in *.
  set (h2' := h2 ++ [EvLog (LogAttemptFailed 1 2 (get s2 "segment_id" (VInt 0)) e1);
                     EvSleep (default_retry_delay * inject_Z 1)]).
  destruct (attempt_body env s2 model h2') as [r3 h3] eqn:E3.
  destruct (H2 h2') as (e2 & Hr3 & Hmsg). rewrite E3 in Hr3. simpl in Hr3. subst r3.
  pose proof E3 as T3. apply attempt_body_trace in T3 as (ta3 & -> & B3).
  rewrite for_loop_cons.
  rewrite (live_step_failure model 2 _ [] s2 (h0 ++ ta1) e2 _
             (two_attempts_fail s2 model default_retry_delay _ e1 _ e2 _
                default_retry_delay_not_negative E2 E3)).
  (* segment 3 *)
  set (h4 := (h2' ++ ta3) ++ _).
  destruct (attempt_body env s3 model h4) as [r4 h5] eqn:E4.
  destruct (H3 h4) as (text3 & Hr4). rewrite E4 in Hr4. simpl in Hr4. subst r4.
  pose proof E4 as T4. apply attempt_body_trace in T4 as (ta4 & -> & B4).
  rewrite for_loop_cons.
  rewrite (live_step_success model 2 _ _ s3 h4 text3 (h4 ++ ta4));
    [|by apply first_attempt_succeeds].
  simpl for_loop. unfold ret.
  destruct B1 as (A1 & S1 & F1 & _), B2 as (A2 & S2 & F2 & _),
    B3 as (A3 & S3 & F3 & _), B4 as (A4 & S4 & F4 & _).
  eexists _, _, _. split.
  { subst h4 h2' h2 h0. rewrite <- !app_assoc. reflexivity. }
  assert (Hsl : forall tl, sleeps ([EvLog (LogBatchStart 3); EvLog (LogApiUrl api_url);
     EvLog (LogModel model)] ++ ta1 ++ ta2 ++
     [EvLog (LogAttemptFailed 1 2 (get s2 "segment_id" (VInt 0)) e1);
      EvSleep (default_retry_delay * inject_Z 1)] ++ ta3 ++
     [EvLog (LogAttemptFailed 2 2 (get s2 "segment_id" (VInt 0)) e2);
      EvLog (LogRetriesExhausted (get s2 "segment_id" (VInt 0)))] ++ ta4 ++
     [EvLog tl]) = [(default_retry_delay * inject_Z 1)%Q]).
  { intros tl. rewrite !sleeps_app, S1, S2, S3, S4. done. }
  conj.
  - simpl. by rewrite (segment_id_of_success _ _ _ Hid1), (segment_id_of_success _ _ _ Hid3).
  - repeat constructor; apply success_result_success.
  - by apply segment_id_of_failure.
  - apply failure_result_success.
  - exists e2. conj; [| |done].
    + rewrite !failed_attempts_app, F1, F2, F3, F4. done.
    + unfold failure_result.
      by destruct (result_dict_fields (get s2 "segment_id" (VInt 0)) (VStr "")
        (get s2 "start_time" (VFloat 0)) (get s2 "end_time" (VFloat 0))
        (get s2 "duration" (VFloat 0)) (get s2 "filename" (VStr ""))
        (VBool false) (VStr (exn_str e2))) as (_ & _ & _ & _ & _ & _ & _ & ->).
  - rewrite !failed_attempts_app, F1, F2, F3, F4. done.
  - apply Hsl.
  - unfold total_sleep. rewrite Hsl. done.
Qed.

End Batch.

Lemma batch_partitions_segments_witness :
  ("" = "" -> Forall (fun s => segment_typed s = true) [opening; questions; closing]) /\
  exists successes failures t,
    batch_transcribe_segments studio "https://api.scaleway.ai/v1" ""
      [opening; questions; closing] "voxtral-small-24b-2507" 3 true []
    = (Ok (successes, failures), t) /\
    (length successes + length failures = 3)%nat.
Proof.
  assert ("" = "" -> Forall (fun s => segment_typed s = true) [opening; questions; closing])
    as H by (intros _; repeat (apply Forall_cons; split; [by vm_compute|]); apply Forall_nil_2).
  split; [exact H|].
  destruct (batch_partitions_segments studio "https://api.scaleway.ai/v1" ""
              [opening; questions; closing] "voxtral-small-24b-2507" 3 true [] H)
    as (successes & failures & t & outcomes & E & _ & _ & _ & _ & _ & L).
  by exists successes, failures, t.
Defined.

Lemma demo_mode_placeholders_witness :
  Forall (fun s => segment_typed s = true) [opening; questions] /\
  exists successes,
    batch_transcribe_segments studio "https://api.scaleway.ai/v1" "" [opening; questions]
      "voxtral-small-24b-2507" 3 true []
    = (Ok (successes, []),
       [EvLog (LogBatchStart 2); EvLog (LogApiUrl "https://api.scaleway.ai/v1");
        EvLog (LogModel "voxtral-small-24b-2507"); EvLog LogDemoMode;
        EvLog (LogDemoComplete 2)]) /\
    length successes = 2%nat.
Proof.
  assert (Forall (fun s => segment_typed s = true) [opening; questions])
    as H by (repeat (apply Forall_cons; split; [by vm_compute|]); apply Forall_nil_2).
  split; [exact H|].
  destruct (demo_mode_placeholders studio "https://api.scaleway.ai/v1" [opening; questions]
              "voxtral-small-24b-2507" 3 true [] H) as (successes & E & L & _).
  by exists successes.
Defined.

(** C5, as stated, fails: the number in the placeholder is
    [segment_id + 1], not the 1-based index of the segment.  In the batch
    of [opening] and [questions], whose ids are 1 and 2, the first segment
    is announced as segment 2 and the second as segment 3. *)
Lemma placeholder_number_is_not_the_index :
  let outcome :=
    batch_transcribe_segments studio "https://api.scaleway.ai/v1" ""
      [opening; questions] "voxtral-small-24b-2507" 3 true [] in
  Forall (fun s => segment_typed s = true) [opening; questions] /\
  map segment_id_of [opening; questions] = [1; 2] /\
  exists first second,
    outcome.1 = Ok ([first; second], []) /\
    first !! "text"
    = Some (VStr "[DEMO TRANSCRIPT] Segment 2 from file 'segment_001.wav'. This is generated placeholder text to illustrate the final experience without calling the Voxtral API.") /\
    second !! "text"
    = Some (VStr "[DEMO TRANSCRIPT] Segment 3 from file 'segment_002.wav'. This is generated placeholder text to illustrate the final experience without calling the Voxtral API.") /\
    first !! "text" <> Some (VStr (demo_text studio (VInt 1) (VStr "segment_001.wav"))) /\
    second !! "text" <> Some (VStr (demo_text studio (VInt 2) (VStr "segment_002.wav"))).
Proof.
  cbv zeta. conj.
  - repeat (apply Forall_cons; split; [by vm_compute|]). apply Forall_nil_2.
  - by vm_compute.
  - eexists _, _. conj; [by vm_compute|by vm_compute|by vm_compute| |].
    + intros H. vm_compute in H. discriminate H.
    + intros H. vm_compute in H. discriminate H.
Qed.

Lemma zero_retries_fail_raw_segments_witness :
  "sk-live" <> "" /\
  exists t,
    batch_transcribe_segments studio "https://api.scaleway.ai/v1" "sk-live"
      [opening; questions] "voxtral-small-24b-2507" 0 true []
    = (Ok ([], [opening; questions]), t) /\
    attempts_made t = 0%nat.
Proof.
  assert ("sk-live" <> "") as H by done.
  split; [exact H|].
  destruct (zero_retries_fail_raw_segments studio "https://api.scaleway.ai/v1" "sk-live"
              [opening; questions] "voxtral-small-24b-2507" true 2 [] H)
    as (_ & successes & failures & t & E & -> & -> & Ha & _).
  by exists ([] ++ t).
Defined.

Lemma middle_segment_fails_both_attempts_witness :
  "sk-live" <> "" /\
  opening !! "segment_id" = Some (VInt 1) /\
  questions !! "segment_id" = Some (VInt 2) /\
  closing !! "segment_id" = Some (VInt 3) /\
  (forall h0, exists transcription_text,
     (attempt_body studio opening "voxtral-small-24b-2507" h0).1 = Ok transcription_text) /\
  (forall h0, exists e,
     (attempt_body studio questions "voxtral-small-24b-2507" h0).1 = Raise e /\
     exn_str e <> "") /\
  (forall h0, exists transcription_text,
     (attempt_body studio closing "voxtral-small-24b-2507" h0).1 = Ok transcription_text) /\
  exists successes failed t,
    batch_transcribe_segments studio "https://api.scaleway.ai/v1" "sk-live"
      [opening; questions; closing] "voxtral-small-24b-2507" 2 true []
    = (Ok (successes, [failed]), t) /\
    map segment_id_of successes = [1; 3] /\
    segment_id_of failed = 2 /\
    sleeps t = [(default_retry_delay * inject_Z 1)%Q].
Proof.
  assert ("sk-live" <> "") as Hkey by done.
  assert (opening !! "segment_id" = Some (VInt 1)) as H1 by (by vm_compute).
  assert (questions !! "segment_id" = Some (VInt 2)) as H2 by (by vm_compute).
  assert (closing !! "segment_id" = Some (VInt 3)) as H3 by (by vm_compute).
  assert (forall h0, exists transcription_text,
     (attempt_body studio opening "voxtral-small-24b-2507" h0).1 = Ok transcription_text)
    as A1 by (intros h0; eexists; by vm_compute).
  assert (forall h0, exists e,
     (attempt_body studio questions "voxtral-small-24b-2507" h0).1 = Raise e /\
     exn_str e <> "") as A2 by (intros h0; eexists; split; [by vm_compute|done]).
  assert (forall h0, exists transcription_text,
     (attempt_body studio closing "voxtral-small-24b-2507" h0).1 = Ok transcription_text)
    as A3 by (intros h0; eexists; by vm_compute).
  conj; [done..|].
  destruct (middle_segment_fails_both_attempts studio "https://api.scaleway.ai/v1"
              "sk-live" opening questions closing "voxtral-small-24b-2507" true []
              Hkey H1 H2 H3 A1 A2 A3)
    as (successes & failed & t & E & Hs & _ & Hf & _ & _ & _ & Hsl & _).
  by exists successes, failed, ([] ++ t).
Defined.

(** C4, as stated, fails: with two retries the middle segment is tried
    twice and the batch sleeps once, for [retry_delay * 1]; the total is
    not [retry_delay * 1 + retry_delay * 2]. *)
Lemma two_retries_do_not_sleep_twice :
  let outcome :=
    batch_transcribe_segments studio "https://api.scaleway.ai/v1" "sk-live"
      [opening; questions; closing] "voxtral-small-24b-2507" 2 true [] in
  (exists successes failed,
     outcome.1 = Ok (successes, [failed]) /\
     map segment_id_of successes = [1; 3] /\
     segment_id_of failed = 2 /\
     failed !! "error" = Some (VStr "Connection error.")) /\
  map fst (failed_attempts outcome.2) = [1; 2] /\
  sleeps outcome.2 = [(default_retry_delay * inject_Z 1)%Q] /\
  (total_sleep outcome.2 == default_retry_delay * 1)%Q /\
  ~ (total_sleep outcome.2 == default_retry_delay * 1 + default_retry_delay * 2)%Q.
Proof.
  cbv zeta. conj.
  - eexists _, _. conj; [by vm_compute|by vm_compute|by vm_compute|by vm_compute].
  - by vm_compute.
  - by vm_compute.
  - by vm_compute.
  - by vm_compute.
Qed.


(** *** The assembler *)

Section Assembly.

Variable env : Env.

Lemma py_lt_int a b : py_lt (VInt a) (VInt b) = Ok (a <? b).
Proof.
  unfold py_lt. simpl. f_equal. unfold num_ltb, Qltb, Qcompare, Z.ltb. simpl.
  by rewrite !Z.mul_1_r.
Qed.

Lemma insert_keyed_cons kx x ky y l :
  insert_keyed kx x ((ky, y) :: l) =
  try! smaller <- py_lt ky kx;
  if (smaller : bool) then try! r <- insert_keyed kx x l; Ok ((ky, y) :: r)
  else Ok ((kx, x) :: (ky, y) :: l).
Proof. done. Qed.

Lemma insert_keyed_int z x l :
  Forall int_keyed l -> StronglySorted key_le l ->
  exists r, insert_keyed (VInt z) x l = Ok r /\ r ≡ₚ (VInt z, x) :: l /\
            StronglySorted key_le r.
Proof.
  induction l as [|[ky y] l IH]; intros Hk Hs.
  - eexists. conj; [done|done|]. repeat constructor.
  - apply Forall_cons in Hk as [[w Hw] Hk]. simpl in Hw. subst ky.
    apply StronglySorted_inv in Hs as [Hs Hall].
    rewrite insert_keyed_cons, py_lt_int. simpl res_bind.
    destruct (w <? z) eqn:Hlt.
    + destruct (IH Hk Hs) as (r & -> & HP & HS). simpl.
      eexists. conj; [done| |].
      * rewrite HP. apply perm_swap.
      * constructor; [done|]. rewrite HP. constructor; [|done].
        unfold key_le, key_of. simpl. lia.
    + eexists. conj; [done|done|].
      constructor; [by constructor|]. constructor.
      * unfold key_le, key_of. simpl. lia.
      * eapply Forall_impl; [exact Hall|]. intros [k a]. unfold key_le, key_of. simpl. lia.
Qed.

Lemma sort_keyed_int l :
  Forall int_keyed l ->
  exists r, sort_keyed l = Ok r /\ r ≡ₚ l /\ StronglySorted key_le r.
Proof.
  induction l as [|[kx x] l IH]; intros Hk.
  - exists []. conj; [done|done|constructor].
  - apply Forall_cons in Hk as [[z Hz] Hk]. simpl in Hz. subst kx.
    destruct (IH Hk) as (r & Hr & HP & HS). simpl. rewrite Hr. simpl.
    destruct (insert_keyed_int z x r) as (r' & -> & HP' & HS'); [by rewrite HP|done|].
    exists r'. conj; [done| |done]. by rewrite HP', HP.
Qed.

Lemma keys_of_results l :
  Forall (fun r => has is_int r "segment_id" = true) l ->
  res_map (fun x => try! k <- getitem x "segment_id"; Ok (k, x)) l = Ok (map keyed l).
Proof.
  induction 1 as [|x l Hx Hl IH]; [done|].
  simpl. rewrite IH. unfold getitem, keyed, segment_id_of. revert Hx. unfold has.
  by destruct (x !! "segment_id") as [[]|].
Qed.

Lemma elem_of_map {A B} (f : A -> B) l y :
  y ∈ map f l <-> exists x, y = f x /\ x ∈ l.
Proof.
  rewrite list_elem_of_In, in_map_iff. split.
  - intros (x & <- & Hx). exists x. by rewrite list_elem_of_In.
  - intros (x & -> & Hx). exists x. by rewrite <- list_elem_of_In.
Qed.

Lemma elem_of_map_2 {A B} (f : A -> B) l x : x ∈ l -> f x ∈ map f l.
Proof. intros Hx. apply elem_of_map. by exists x. Qed.

Lemma NoDup_map_inj {A B} (f : A -> B) l x y :
  NoDup (map f l) -> x ∈ l -> y ∈ l -> f x = f y -> x = y.
Proof.
  induction l as [|a l IH]; intros Hnd Hx Hy E; [by apply elem_of_nil in Hx|].
  simpl in Hnd. apply NoDup_cons in Hnd as [Ha Hnd].
  apply elem_of_cons in Hx as [->|Hx], Hy as [->|Hy]; [done| | |by apply IH].
  - exfalso. apply Ha. rewrite E. by apply elem_of_map_2.
  - exfalso. apply Ha. rewrite <- E. by apply elem_of_map_2.
Qed.

#[local] Instance key_le_trans : Transitive key_le.
Proof. intros a b c. unfold key_le. lia. Qed.

(** With distinct integer ids the sorted list is the same for every order
    of the input, and ascends strictly. *)
Lemma sorted_by_segment_id_perm l l' :
  Forall (fun r => has is_int r "segment_id" = true) l ->
  NoDup (map segment_id_of l) -> l ≡ₚ l' ->
  exists sorted,
    sorted_by_segment_id l = Ok sorted /\ sorted_by_segment_id l' = Ok sorted /\
    sorted ≡ₚ l /\
    StronglySorted (fun a b => segment_id_of a < segment_id_of b) sorted.
Proof.
  intros Hid Hnd HP.
  assert (Forall (fun r => has is_int r "segment_id" = true) l') as Hid' by by rewrite <- HP.
  unfold sorted_by_segment_id. rewrite (keys_of_results l Hid), (keys_of_results l' Hid').
  simpl.
  assert (forall m, Forall int_keyed (map keyed m)) as Hk.
  { intros m. apply Forall_forall. intros p Hp. apply elem_of_map in Hp as (x & -> & _).
    by eexists. }
  destruct (sort_keyed_int _ (Hk l)) as (r & -> & Pr & Sr).
  destruct (sort_keyed_int _ (Hk l')) as (r' & -> & Pr' & Sr').
  simpl.
  assert (r = r') as <-.
  { apply (Sorted_unique_strong key_le).
    - intros p1 p2 H1 H2 L1 L2. rewrite Pr in H1. rewrite Pr', <- HP in H2.
      apply elem_of_map in H1 as (a & -> & Ha).
      apply elem_of_map in H2 as (b & -> & Hb).
      unfold key_le, key_of, keyed in *. simpl in *.
      assert (a = b) as -> by (apply (NoDup_map_inj segment_id_of l); [done..|lia]).
      done.
    - by apply StronglySorted_Sorted.
    - by apply StronglySorted_Sorted.
    - rewrite Pr, Pr'. by apply Permutation_map. }
  exists (map snd r). conj; [done|done| |].
  - rewrite Pr. rewrite map_map. simpl. by rewrite map_id.
  - assert (NoDup (map key_of r)) as Hnd'.
    { rewrite Pr, map_map. done. }
    assert (Forall (fun p => key_of p = segment_id_of p.2) r) as Hkeys.
    { rewrite Pr. apply Forall_forall. intros p Hp.
      apply elem_of_map in Hp as (x & -> & _). done. }
    clear Pr Pr' Sr'. induction Sr as [|p r Sr IH Hall]; [constructor|].
    simpl in Hnd'. apply NoDup_cons in Hnd' as [Hp Hnd'].
    apply Forall_cons in Hkeys as [Hkp Hkeys].
    simpl. constructor; [by apply IH|].
    apply Forall_forall. intros x Hx. apply elem_of_map in Hx as (q & -> & Hq).
    rewrite Forall_forall in Hall, Hkeys. pose proof (Hall _ Hq) as Hle.
    pose proof (Hkeys _ Hq) as Hkq. unfold key_le in Hle.
    assert (key_of p <> key_of q).
    { intros E. apply Hp. rewrite E. by apply elem_of_map_2. }
    lia.
Qed.


Lemma res_map_ok {A B} (f : A -> res B) l :
  Forall (fun x => exists y, f x = Ok y) l -> exists ys, res_map f l = Ok ys.
Proof.
  induction 1 as [|x l [y Hy] Hl [ys IH]]; [by exists []|].
  exists (y :: ys). simpl. by rewrite Hy, IH.
Qed.

Lemma typed_fields r :
  result_typed r = true ->
  exists z t a b,
    r !! "segment_id" = Some (VInt z) /\ r !! "text" = Some (VStr t) /\
    r !! "start_time" = Some a /\ is_number a = true /\
    r !! "end_time" = Some b /\ is_number b = true.
Proof.
  unfold result_typed, has. rewrite !andb_true_iff. intros (((Hi & Ht) & Ha) & Hb).
  destruct (r !! "segment_id") as [[| |z| |]|]; try done.
  destruct (r !! "text") as [[| | | |t]|]; try done.
  destruct (r !! "start_time") as [a|]; [|done].
  destruct (r !! "end_time") as [b|]; [|done].
  by exists z, t, a, b.
Qed.

Lemma int_floordiv_60_number v : is_number v = true -> exists z, int_floordiv_60 v = Ok z.
Proof. destruct v; try done; by eexists. Qed.

Lemma int_mod_60_number v : is_number v = true -> exists z, int_mod_60 v = Ok z.
Proof. destruct v; try done; by eexists. Qed.

Lemma segment_lines_typed r : result_typed r = true -> exists ls, segment_lines r = Ok ls.
Proof.
  intros (z & t & a & b & _ & Ht & Ha & Na & Hb & Nb)%typed_fields.
  unfold segment_lines, getitem. rewrite Ha, Hb, Ht. simpl res_bind.
  destruct (int_floordiv_60_number a Na) as (? & ->), (int_mod_60_number a Na) as (? & ->),
    (int_floordiv_60_number b Nb) as (? & ->), (int_mod_60_number b Nb) as (? & ->).
  by eexists.
Qed.

Lemma duration_lines_typed l :
  Forall (fun r => result_typed r = true) l -> exists ls, duration_lines l = Ok ls.
Proof.
  intros Hl. unfold duration_lines. destruct (last l) as [final|] eqn:E; [|by eexists].
  apply last_Some_elem_of in E. rewrite Forall_forall in Hl.
  destruct (typed_fields final (Hl _ E)) as (z & t & a & b & _ & _ & _ & _ & Hb & Nb).
  unfold getitem. rewrite Hb. simpl res_bind.
  destruct (int_floordiv_60_number b Nb) as (? & ->), (int_mod_60_number b Nb) as (? & ->).
  by eexists.
Qed.

Lemma transcript_text_typed l :
  Forall (fun r => result_typed r = true) l -> exists document, transcript_text l = Ok document.
Proof.
  intros Hl. unfold transcript_text.
  destruct (res_map_ok segment_lines l) as (body & ->).
  { eapply Forall_impl; [exact Hl|]. apply segment_lines_typed. }
  destruct (duration_lines_typed l Hl) as (d & ->). by eexists.
Qed.

(** C6.  For every list of results whose [segment_id]s are distinct
    integers and every permutation of it, [create_complete_transcript]
    behaves the same on both: both are sorted to the same list, which
    ascends by id, and when the results follow the schema both calls return
    the same document. *)
Theorem transcript_independent_of_input_order l l' output_path h :
  Forall (fun r => has is_int r "segment_id" = true) l ->
  NoDup (map segment_id_of l) ->
  l ≡ₚ l' ->
  create_complete_transcript env l output_path h
    = create_complete_transcript env l' output_path h /\
  (exists sorted,
     sorted_by_segment_id l = Ok sorted /\ sorted_by_segment_id l' = Ok sorted /\
     sorted ≡ₚ l /\
     StronglySorted (fun a b => segment_id_of a < segment_id_of b) sorted) /\
  (Forall (fun r => result_typed r = true) l ->
   exists document,
     create_complete_transcript env l None h = (Ok document, h) /\
     create_complete_transcript env l' None h = (Ok document, h)).
Proof.
  intros Hid Hnd HP.
  destruct (sorted_by_segment_id_perm l l' Hid Hnd HP) as (sorted & E & E' & Ps & Ss).
  conj.
  - unfold create_complete_transcript. by rewrite E, E'.
  - by exists sorted.
  - intros Hty. destruct (transcript_text_typed sorted) as (document & Hdoc).
    { by rewrite Ps. }
    exists document. unfold create_complete_transcript, bind, lift, ret.
    by rewrite E, E', Hdoc.
Qed.

Lemma metadata_of_typed l audio_file sample_rate :
  l <> [] -> Forall (fun r => result_typed r = true) l ->
  exists metadata final,
    create_transcript_metadata l audio_file sample_rate = Ok metadata /\
    last l = Some final /\
    final !! "end_time" = Some (total_duration metadata) /\
    py_truediv_int (total_duration metadata) (Z.of_nat (length l))
      = Ok (avg_segment_duration metadata) /\
    segments metadata = l.
Proof.
  intros Hne Hty. unfold create_transcript_metadata.
  destruct (last l) as [final|] eqn:E; [|by apply last_None in E].
  pose proof E as Hin. apply last_Some_elem_of in Hin.
  pose proof Hty as Hall. rewrite Forall_forall in Hall.
  destruct (typed_fields final (Hall _ Hin)) as (z & t & a & b & _ & _ & _ & _ & Hb & Nb).
  unfold getitem at 1. rewrite Hb. simpl res_bind.
  destruct (res_map_ok word_count l) as (counts & ->).
  { eapply Forall_impl; [exact Hty|]. intros r Hr.
    destruct (typed_fields r Hr) as (? & t' & ? & ? & _ & Ht & _).
    unfold word_count, getitem. rewrite Ht. by eexists. }
  simpl res_bind.
  assert ((0 <? Z.of_nat (length l)) = true) as ->.
  { apply Z.ltb_lt. destruct l; [done|]. simpl. lia. }
  assert (exists avg, py_truediv_int b (Z.of_nat (length l)) = Ok avg) as (avg & Havg).
  { destruct b; try done; by eexists. }
  rewrite Havg. simpl. by eexists _, final.
Qed.


(** C8.  For every non-empty list of results that follow the schema,
    [create_transcript_metadata] returns a record whose [total_duration] is
    the [end_time] of the last element of the list as given, and whose
    [segments] are the list as given: it does not sort.  For the two orders
    of [first_minute] and [second_minute] the total durations (140 and 75)
    and the average durations (70 and 37.5) differ, while the transcript
    document is the same. *)
Theorem metadata_duration_follows_input_order :
  (forall l audio_file sample_rate,
     l <> [] -> Forall (fun r => result_typed r = true) l ->
     exists metadata final,
       create_transcript_metadata l audio_file sample_rate = Ok metadata /\
       last l = Some final /\
       final !! "end_time" = Some (total_duration metadata) /\
       segments metadata = l) /\
  ([first_minute; second_minute] ≡ₚ [second_minute; first_minute] /\
   map segment_id_of [first_minute; second_minute] = [1; 2] /\
   exists metadata metadata' document,
     create_transcript_metadata [first_minute; second_minute] "call.mp3" 16000
       = Ok metadata /\
     create_transcript_metadata [second_minute; first_minute] "call.mp3" 16000
       = Ok metadata' /\
     total_duration metadata = VFloat 140 /\
     total_duration metadata' = VFloat 75 /\
     avg_segment_duration metadata = VFloat 70 /\
     avg_segment_duration metadata' = VFloat (75 # 2) /\
     create_complete_transcript env [first_minute; second_minute] None []
       = (Ok document, []) /\
     create_complete_transcript env [second_minute; first_minute] None []
       = (Ok document, [])).
Proof.
  split.
  - intros l audio_file sample_rate Hne Hty.
    destruct (metadata_of_typed l audio_file sample_rate Hne Hty)
      as (metadata & final & ? & ? & ? & ? & ?).
    by exists metadata, final.
  - conj; [apply perm_swap|by vm_compute|].
    eexists _, _, _. conj; [by vm_compute|by vm_compute|..]; by vm_compute.
Qed.

End Assembly.

Lemma transcript_independent_of_input_order_witness :
  Forall (fun r => has is_int r "segment_id" = true) [second_minute; first_minute] /\
  NoDup (map segment_id_of [second_minute; first_minute]) /\
  [second_minute; first_minute] ≡ₚ [first_minute; second_minute] /\
  create_complete_transcript studio [second_minute; first_minute] None []
  = create_complete_transcript studio [first_minute; second_minute] None [].
Proof.
  assert (Forall (fun r => has is_int r "segment_id" = true) [second_minute; first_minute])
    as H by (repeat (apply Forall_cons; split; [by vm_compute|]); apply Forall_nil_2).
  assert (NoDup (map segment_id_of [second_minute; first_minute])) as Hn.
  { change (NoDup [2; 1]). apply (bool_decide_unpack _). by vm_compute. }
  assert ([second_minute; first_minute] ≡ₚ [first_minute; second_minute]) as Hp
    by apply perm_swap.
  conj; [done..|].
  apply (transcript_independent_of_input_order studio _ _ None [] H Hn Hp).
Defined.

Lemma metadata_duration_follows_input_order_witness :
  [second_minute; first_minute] <> [] /\
  Forall (fun r => result_typed r = true) [second_minute; first_minute] /\
  exists metadata,
    create_transcript_metadata [second_minute; first_minute] "call.mp3" 16000 = Ok metadata /\
    first_minute !! "end_time" = Some (total_duration metadata).
Proof.
  assert ([second_minute; first_minute] <> []) as Hne by done.
  assert (Forall (fun r => result_typed r = true) [second_minute; first_minute])
    as H by (repeat (apply Forall_cons; split; [by vm_compute|]); apply Forall_nil_2).
  conj; [done..|].
  destruct (metadata_duration_follows_input_order studio) as [Hlast _].
  destruct (Hlast [second_minute; first_minute] "call.mp3" 16000 Hne H)
    as (metadata & final & E & Hfinal & Hend & _).
  exists metadata. split; [exact E|]. by injection Hfinal as <-.
Defined.

End TranscriptionFacts.

(** *** app.py *)

Module AudioEventHandlerFacts.
Import Py Eff AudioEventHandler Examples.

(** *** What a computation leaves in place *)

Section Respects.

Context (R : relation State) `{!Reflexive R, !Transitive R}.

Lemma respects_ret {A} (a : A) : respects R (ret a).
Proof. by intros s r s' [= <- <-]. Qed.

Lemma respects_raise {A} e : respects R (raise (A:=A) e).
Proof. by intros s r s' [= <- <-]. Qed.

Lemma respects_lift {A} (x : res A) : respects R (lift x).
Proof. by intros s r s' [= <- <-]. Qed.

Lemma respects_read {A} (f : State -> A) : respects R (read f).
Proof. by intros s r s' [= <- <-]. Qed.

Lemma respects_bind {A B} (m : M State A) (k : A -> M State B) :
  respects R m -> (forall a, respects R (k a)) -> respects R (bind m k).
Proof.
  intros Hm Hk s r s'. unfold bind. destruct (m s) as [[a|e] s0] eqn:E.
  - intros Hr. transitivity s0; [by eapply Hm|by eapply Hk].
  - intros [= <- <-]. by eapply Hm.
Qed.

Lemma respects_try_except {A} (m : M State A) (handler : exn -> M State A) :
  respects R m -> (forall e, respects R (handler e)) -> respects R (try_except m handler).
Proof.
  intros Hm Hk s r s'. unfold try_except. destruct (m s) as [[a|e] s0] eqn:E.
  - intros [= <- <-]. by eapply Hm.
  - intros Hr. transitivity s0; [by eapply Hm|by eapply Hk].
Qed.

End Respects.

#[local] Instance grows_refl : Reflexive grows.
Proof. intros s. exists []. by rewrite app_nil_r. Qed.

#[local] Instance grows_trans : Transitive grows.
Proof. intros a b c [t Ht] [u Hu]. exists (t ++ u). by rewrite Hu, Ht, app_assoc. Qed.

#[local] Instance same_refl {A} (slot : State -> A) : Reflexive (same slot).
Proof. by intros s. Qed.

#[local] Instance same_trans {A} (slot : State -> A) : Transitive (same slot).
Proof. intros a b c. unfold same. congruence. Qed.

#[local] Instance keeps_refl slot : Reflexive (keeps slot).
Proof. by intros s. Qed.

#[local] Instance keeps_trans slot : Transitive (keeps slot).
Proof.
  intros a b c Hab Hbc Ha. unfold keeps in *. rewrite Hbc; [by apply Hab|].
  by rewrite Hab.
Qed.

Lemma same_keeps slot {A} (m : M State A) : respects (same slot) m -> respects (keeps slot) m.
Proof. intros H s r s' E _. by eapply H. Qed.

Ltac respects_step :=
  match goal with
  | |- respects _ (bind _ _) => apply respects_bind; [tc_solve..| |intros ?]
  | |- respects _ (try_except _ _) => apply respects_try_except; [tc_solve..| |intros ?]
  | |- respects _ (ret _) => apply respects_ret; tc_solve
  | |- respects _ (raise _) => apply respects_raise; tc_solve
  | |- respects _ (lift _) => apply respects_lift; tc_solve
  | |- respects _ (read _) => apply respects_read; tc_solve
  | |- respects _ (if ?b then _ else _) => destruct b
  | |- respects _ (match ?x with _ => _ end) => destruct x
  | |- respects _ (let '(_, _) := ?x in _) => destruct x
  end.

Lemma grows_emit ev : respects grows (emit ev).
Proof. intros s r s' [= <- <-]. by eexists. Qed.

Lemma grows_set_kfp_session x : respects grows (set_kfp_session x).
Proof. intros s r s' [= <- <-]. exists []. simpl. by rewrite app_nil_r. Qed.

Section Handler.

Variable cfg : Config.
Variable env : Env.

Lemma grows_session_request session request :
  respects grows (session_request env session request).
Proof. intros s r s' [= <- <-]. by eexists. Qed.

Lemma grows_kfp_request method path params body timeout :
  respects grows (_kfp_request cfg env method path params body timeout).
Proof.
  unfold _kfp_request, _get_kfp_session, log. cbv zeta.
  repeat first [respects_step | apply grows_emit | apply grows_set_kfp_session
               | apply grows_session_request].
Qed.

Lemma same_kfp_request {A} (slot : State -> A) method path params body timeout :
  (forall s x t, slot {| kfp_session := x;
                         cached_pipeline_id := cached_pipeline_id s;
                         cached_experiment_id := cached_experiment_id s;
                         trace := t |} = slot s) ->
  respects (same slot) (_kfp_request cfg env method path params body timeout).
Proof.
  intros Hslot.
  assert (forall ev, respects (same slot) (emit ev)) as Hemit.
  { intros ev s r s' [= <- <-]. apply Hslot. }
  unfold _kfp_request, _get_kfp_session, log. cbv zeta.
  repeat first [respects_step | apply Hemit].
  all: intros s r s' [= <- <-]; apply Hslot.
Qed.

(** A call begins by sending its request. *)
Lemma kfp_request_sends method path params body timeout s r s' :
  _kfp_request cfg env method path params body timeout s = (r, s') ->
  exists rest,
    trace s' = trace s
      ++ EvRequest (current_session cfg s) (kfp_request_of cfg env method path params body timeout)
      :: rest.
Proof.
  unfold _kfp_request, _get_kfp_session, bind, read, set_kfp_session, session_request,
    emit, log, ret, raise, current_session. cbv zeta.
  destruct (kfp_session s) as [session|]; cbn [trace].
  - destruct (send env (trace s) session _) as [reply|e]; [|intros [= <- <-]; by eexists].
    destruct (400 <=? status_code reply).
    { intros [= <- <-]. cbn [trace]. rewrite <- app_assoc. by eexists. }
    destruct (String.eqb (reply_text reply) ""); [intros [= <- <-]; by eexists|].
    destruct (reply_json reply); intros [= <- <-]; cbn [trace];
      [|rewrite <- app_assoc]; by eexists.
  - destruct (send env (trace s) (new_session cfg) _) as [reply|e];
      [|intros [= <- <-]; by eexists].
    destruct (400 <=? status_code reply).
    { intros [= <- <-]. cbn [trace]. rewrite <- app_assoc. by eexists. }
    destruct (String.eqb (reply_text reply) ""); [intros [= <- <-]; by eexists|].
    destruct (reply_json reply); intros [= <- <-]; cbn [trace];
      [|rewrite <- app_assoc]; by eexists.
Qed.

(** A call that is answered with a JSON document returns it. *)
Lemma kfp_request_answered method path params body timeout s reply v :
  send env (trace s) (current_session cfg s)
    (kfp_request_of cfg env method path params body timeout) = Ok reply ->
  status_code reply < 400 -> reply_text reply <> "" -> reply_json reply = Some v ->
  _kfp_request cfg env method path params body timeout s
  = (Ok v, {| kfp_session := Some (current_session cfg s);
              cached_pipeline_id := cached_pipeline_id s;
              cached_experiment_id := cached_experiment_id s;
              trace := trace s
                ++ [EvRequest (current_session cfg s)
                      (kfp_request_of cfg env method path params body timeout)] |}).
Proof.
  intros Hsend Hstatus Htext Hjson.
  unfold _kfp_request, _get_kfp_session, bind, read, set_kfp_session, session_request,
    emit, log, ret, raise. cbv zeta.
  unfold current_session in *.
  destruct (kfp_session s) as [session|] eqn:Hs; cbn [trace]; rewrite Hsend;
    rewrite (proj2 (Z.leb_gt 400 (status_code reply)) Hstatus),
      (proj2 (String.eqb_neq (reply_text reply) "") Htext), Hjson.
  all: by rewrite ?Hs.
Qed.

Lemma bind_ok_inv {S A B} (m : M S A) (k : A -> M S B) s b s' :
  bind m k s = (Ok b, s') -> exists a s0, m s = (Ok a, s0) /\ k a s0 = (Ok b, s').
Proof.
  unfold bind. destruct (m s) as [[a|e] s0]; [|done]. intros E. by exists a, s0.
Qed.

Lemma lift_ok_inv {S A} (x : res A) (s : S) a s' :
  lift x s = (Ok a, s') -> x = Ok a /\ s' = s.
Proof. by intros [= -> <-]. Qed.

Ltac bind_inv H :=
  repeat first
    [ apply bind_ok_inv in H as (? & ? & ? & H)
    | match type of H with (match ?b with _ => _ end) _ = _ => destruct b eqn:? end ];
  repeat match goal with
         | E : lift _ _ = (Ok _, _) |- _ => apply lift_ok_inv in E as [? ?]
         | E : ret _ _ = (Ok _, _) |- _ => injection E as ? ?
         | E : read _ _ = (Ok _, _) |- _ => injection E as ? ?
         | E : raise _ _ = (Ok _, _) |- _ => discriminate E
         | E : set_cached_experiment_id _ _ = (Ok _, _) |- _ => injection E as ? ?
         | E : set_cached_pipeline_id _ _ = (Ok _, _) |- _ => injection E as ? ?
         | E : log _ _ = (Ok _, _) |- _ => injection E as ? ?
         end.

(** **** The experiment *)

Lemma experiment_hit s :
  json_truthy (cached_experiment_id s) = true ->
  _get_or_create_experiment_id cfg env s = (Ok (cached_experiment_id s), s).
Proof. intros H. unfold _get_or_create_experiment_id, bind, read, ret. by rewrite H. Qed.

Lemma experiment_resolved s id s1 :
  _get_or_create_experiment_id cfg env s = (Ok id, s1) -> cached_experiment_id s1 = id.
Proof.
  unfold _get_or_create_experiment_id. intros E. bind_inv E; subst; done.
Qed.

(** **** The pipeline *)

Lemma pipeline_hit s :
  json_truthy (cached_pipeline_id s) = true ->
  _get_pipeline_id cfg env s = (Ok (cached_pipeline_id s), s).
Proof. intros H. unfold _get_pipeline_id, bind, read, ret. by rewrite H. Qed.

Lemma scan_pipelines_found pipelines : forall s id s1,
  scan_pipelines cfg pipelines s = (Ok (Some id), s1) ->
  json_truthy id = true /\ cached_pipeline_id s1 = id.
Proof.
  induction pipelines as [|pipeline rest IH]; intros s id s1 E; [done|].
  simpl in E. bind_inv E; subst; try (by eapply IH); by simplify_eq.
Qed.

Lemma pipeline_resolved s id s1 :
  _get_pipeline_id cfg env s = (Ok id, s1) ->
  json_truthy id = true /\ cached_pipeline_id s1 = id.
Proof.
  unfold _get_pipeline_id. intros E. bind_inv E; subst; [done|].
  by eapply scan_pipelines_found.
Qed.

(** **** What the handler leaves in place *)

Ltac respects_prim :=
  let s := fresh "s" in
  intros s ? ? [= <- <-];
  first [ done | by eexists | (exists []; simpl; by rewrite app_nil_r) | by intros _ ].

Lemma same_experiment_scan pipelines :
  respects (same cached_experiment_id) (scan_pipelines cfg pipelines).
Proof.
  induction pipelines as [|pipeline rest IH]; simpl; unfold log;
    repeat first [respects_step | apply IH | respects_prim].
Qed.

Lemma same_experiment_get_pipeline_id :
  respects (same cached_experiment_id) (_get_pipeline_id cfg env).
Proof.
  unfold _get_pipeline_id. cbv zeta.
  repeat first [respects_step | apply same_experiment_scan
               | (apply same_kfp_request; done) | respects_prim].
Qed.

Lemma same_pipeline_get_experiment_id :
  respects (same cached_pipeline_id) (_get_or_create_experiment_id cfg env).
Proof.
  unfold _get_or_create_experiment_id, log. cbv zeta.
  repeat first [respects_step | (apply same_kfp_request; done) | respects_prim].
Qed.

Lemma keeps_experiment_get_experiment_id :
  respects (keeps cached_experiment_id) (_get_or_create_experiment_id cfg env).
Proof.
  intros s r s' E Hs. rewrite (experiment_hit s Hs) in E. by injection E as <- <-.
Qed.

Lemma keeps_pipeline_get_pipeline_id :
  respects (keeps cached_pipeline_id) (_get_pipeline_id cfg env).
Proof.
  intros s r s' E Hs. rewrite (pipeline_hit s Hs) in E. by injection E as <- <-.
Qed.

Lemma grows_scan pipelines : respects grows (scan_pipelines cfg pipelines).
Proof.
  induction pipelines as [|pipeline rest IH]; simpl; unfold log;
    repeat first [respects_step | apply IH | respects_prim].
Qed.

Lemma grows_get_pipeline_id : respects grows (_get_pipeline_id cfg env).
Proof.
  unfold _get_pipeline_id. cbv zeta.
  repeat first [respects_step | apply grows_scan | apply grows_kfp_request | respects_prim].
Qed.

Lemma grows_get_experiment_id : respects grows (_get_or_create_experiment_id cfg env).
Proof.
  unfold _get_or_create_experiment_id, log. cbv zeta.
  repeat first [respects_step | apply grows_kfp_request | respects_prim].
Qed.

(** Handling an event keeps the ids the cache holds, and only adds to the
    trace. *)
Lemma handle_event_keeps request :
  respects (keeps cached_experiment_id) (handle_event cfg env request) /\
  respects (keeps cached_pipeline_id) (handle_event cfg env request) /\
  respects grows (handle_event cfg env request).
Proof.
  conj; unfold handle_event, trigger_pipeline, log; cbv zeta.
  - repeat first [respects_step | apply keeps_experiment_get_experiment_id
                 | (apply same_keeps, same_experiment_get_pipeline_id)
                 | (apply same_keeps, same_kfp_request; done) | respects_prim].
  - repeat first [respects_step | apply keeps_pipeline_get_pipeline_id
                 | (apply same_keeps, same_pipeline_get_experiment_id)
                 | (apply same_keeps, same_kfp_request; done) | respects_prim].
  - repeat first [respects_step | apply grows_get_experiment_id
                 | apply grows_get_pipeline_id | apply grows_kfp_request | respects_prim].
Qed.

(** C7.  For every notification from the bucket [audio-inbox] whose object
    key, once percent-decoded and lowered, starts with [transcripts/], the
    handler answers 200 with the status [ignored] and the reason of the
    artifact rule, whatever the extension of the key; it logs two records,
    sends no request and leaves the cache as it is. *)
Theorem transcript_artifacts_ignored event key s :
  json_truthy (ce_data event) = true ->
  (forall now, exists event_time,
     locate now (ce_data event) = Ok (JStr "audio-inbox", JStr key, event_time)) ->
  key <> "" ->
  startswith (lower (unquote env key)) "transcripts/" = true ->
  exists s',
    handle_event cfg env (Ok event) s
    = (Ok {| code := 200;
             body := [("status", JStr "ignored");
                      ("reason", JStr "transcript artifacts are not ingested")] |}, s') /\
    trace s' = trace s
      ++ [EvLog (LogReceived (ce_type event) (ce_source event)
                   (match ce_subject event with Some x => x | None => JStr "N/A" end));
          EvLog (LogIgnoringOutput (unquote env key))] /\
    requests (trace s') = requests (trace s) /\
    cached_experiment_id s' = cached_experiment_id s /\
    cached_pipeline_id s' = cached_pipeline_id s /\
    kfp_session s' = kfp_session s.
Proof.
  intros Hdata Hloc Hkey Hprefix.
  unfold handle_event, try_except, bind, lift, log, emit, read, ret.
  rewrite Hdata. cbn [negb].
  destruct (Hloc (now_isoformat env (trace s ++
    [EvLog (LogReceived (ce_type event) (ce_source event)
       (match ce_subject event with Some x => x | None => JStr "N/A" end))])))
    as (event_time & Eloc).
  cbn [trace]. rewrite Eloc.
  assert (json_truthy (JStr key) = true) as Hk.
  { simpl. by rewrite (proj2 (String.eqb_neq key "")). }
  rewrite Hk. cbn [json_truthy negb orb unquote_value json_eq_str].
  change (String.eqb "audio-inbox" "audio-inbox") with true. cbn [negb].
  rewrite Hprefix.
  eexists. conj; [reflexivity|..]; cbn [trace cached_experiment_id cached_pipeline_id kfp_session].
  - by rewrite <- app_assoc.
  - unfold requests. rewrite <- !app_assoc, !omap_app. simpl. by rewrite app_nil_r.
  - done.
  - done.
  - done.
Qed.


Lemma bind_first_event {A B} (m : M State A) (k : A -> M State B) s r s' ev :
  (forall r0 s0, m s = (r0, s0) -> exists more, trace s0 = trace s ++ ev :: more) ->
  (forall a, respects grows (k a)) ->
  bind m k s = (r, s') ->
  exists more, trace s' = trace s ++ ev :: more.
Proof.
  intros Hm Hk. unfold bind. destruct (m s) as [[a|e] s0] eqn:E.
  - intros Hr. destruct (Hm _ _ eq_refl) as (more & Hmore).
    destruct (Hk a _ _ _ Hr) as (t & Ht). exists (more ++ t).
    by rewrite Ht, Hmore, <- app_assoc.
  - intros [= <- <-]. by apply (Hm _ _ eq_refl).
Qed.

(** A resolution that finds the slot empty begins with the listing call. *)
Lemma experiment_miss_calls s r s' :
  json_truthy (cached_experiment_id s) = false ->
  _get_or_create_experiment_id cfg env s = (r, s') ->
  exists more,
    trace s' = trace s
      ++ EvRequest (current_session cfg s)
           (kfp_request_of cfg env "GET" "/apis/v2beta1/experiments"
              (experiment_list_params cfg env) None None)
      :: more.
Proof.
  intros Hmiss. unfold _get_or_create_experiment_id. cbv zeta.
  unfold bind at 1, read. rewrite Hmiss.
  apply bind_first_event.
  - intros r0 s0. apply kfp_request_sends.
  - intros experiments. unfold log.
    repeat first [respects_step | apply grows_kfp_request | respects_prim].
Qed.

(** C2.  Once a resolution of the experiment has returned an id (a value
    that is not empty), the slot of the cache holds that id, and a
    resolution from that state, or from any later state whose slot still
    holds it, returns the same id and leaves the state as it is: no request
    is sent.  The same holds for the pipeline, where a resolution that
    returns always returns an id.  Handling an event never changes a slot
    that holds an id. *)
Theorem resolution_cached_after_success :
  (forall s id s1,
     _get_or_create_experiment_id cfg env s = (Ok id, s1) ->
     json_truthy id = true ->
     cached_experiment_id s1 = id /\
     _get_or_create_experiment_id cfg env s1 = (Ok id, s1) /\
     forall s2, cached_experiment_id s2 = id ->
                _get_or_create_experiment_id cfg env s2 = (Ok id, s2)) /\
  (forall s id s1,
     _get_pipeline_id cfg env s = (Ok id, s1) ->
     json_truthy id = true /\
     cached_pipeline_id s1 = id /\
     _get_pipeline_id cfg env s1 = (Ok id, s1) /\
     forall s2, cached_pipeline_id s2 = id -> _get_pipeline_id cfg env s2 = (Ok id, s2)) /\
  (forall request s r s',
     handle_event cfg env request s = (r, s') ->
     (json_truthy (cached_experiment_id s) = true ->
      cached_experiment_id s' = cached_experiment_id s) /\
     (json_truthy (cached_pipeline_id s) = true ->
      cached_pipeline_id s' = cached_pipeline_id s)).
Proof.
  conj.
  - intros s id s1 E Hid. apply experiment_resolved in E.
    assert (forall s2, cached_experiment_id s2 = id ->
                       _get_or_create_experiment_id cfg env s2 = (Ok id, s2)) as Hlater.
    { intros s2 <-. by apply experiment_hit. }
    conj; [done|by apply Hlater|done].
  - intros s id s1 E. apply pipeline_resolved in E as [Hid E].
    assert (forall s2, cached_pipeline_id s2 = id ->
                       _get_pipeline_id cfg env s2 = (Ok id, s2)) as Hlater.
    { intros s2 <-. by apply pipeline_hit. }
    conj; [done|done|by apply Hlater|done].
  - intros request s r s' E.
    destruct (handle_event_keeps request) as (He & Hp & _).
    split; [by eapply He|by eapply Hp].
Qed.

(** C10.  When the slot of the experiment is empty and the listing call is
    answered with a list whose first entry has no [experiment_id], the
    resolution returns [None] without raising, after the listing call
    alone (no creation call), and the slot stays empty; every resolution
    from the state reached sends the listing call again. *)
Theorem experiment_without_id_is_not_cached s reply listing first rest :
  json_truthy (cached_experiment_id s) = false ->
  send env (trace s) (current_session cfg s)
    (kfp_request_of cfg env "GET" "/apis/v2beta1/experiments"
       (experiment_list_params cfg env) None None) = Ok reply ->
  status_code reply < 400 ->
  reply_text reply <> "" ->
  reply_json reply = Some (JDict listing) ->
  listing !! "experiments" = Some (JList (JDict first :: rest)) ->
  first !! "experiment_id" = None ->
  exists s1,
    _get_or_create_experiment_id cfg env s = (Ok JNull, s1) /\
    cached_experiment_id s1 = JNull /\
    trace s1 = trace s
      ++ [EvRequest (current_session cfg s)
            (kfp_request_of cfg env "GET" "/apis/v2beta1/experiments"
               (experiment_list_params cfg env) None None);
          EvLog (LogUsingExperiment (EXPERIMENT_NAME cfg) JNull)] /\
    forall r s2,
      _get_or_create_experiment_id cfg env s1 = (r, s2) ->
      exists more,
        trace s2 = trace s1
          ++ EvRequest (current_session cfg s1)
               (kfp_request_of cfg env "GET" "/apis/v2beta1/experiments"
                  (experiment_list_params cfg env) None None)
          :: more.
Proof.
  intros Hmiss Hsend Hstatus Htext Hjson Hlist Hfirst.
  assert (forall s0 r s', json_truthy (cached_experiment_id s0) = false ->
            _get_or_create_experiment_id cfg env s0 = (r, s') ->
            exists more,
              trace s' = trace s0
                ++ EvRequest (current_session cfg s0)
                     (kfp_request_of cfg env "GET" "/apis/v2beta1/experiments"
                        (experiment_list_params cfg env) None None)
                :: more) as Hcalls.
  { intros s0 r s' H0 E. eapply experiment_miss_calls; [exact H0|exact E]. }
  eexists. conj.
  - unfold _get_or_create_experiment_id. cbv zeta.
    unfold bind at 1, read. rewrite Hmiss. unfold bind at 1.
    rewrite (kfp_request_answered _ _ _ _ _ _ _ _ Hsend Hstatus Htext Hjson).
    unfold bind, lift, json_get. rewrite Hlist.
    cbn [json_or json_truthy json_first]. rewrite Hfirst.
    unfold set_cached_experiment_id, log, emit, ret. cbn. reflexivity.
  - done.
  - cbn [trace]. by rewrite <- app_assoc.
  - intros r s2 E. eapply Hcalls; [|exact E]. done.
Qed.

End Handler.

Lemma transcript_artifacts_ignored_witness :
  let event := notification "audio-inbox" "Transcripts%2Fcall.mp3" in
  json_truthy (ce_data event) = true /\
  (forall now, exists event_time,
     locate now (ce_data event)
     = Ok (JStr "audio-inbox", JStr "Transcripts%2Fcall.mp3", event_time)) /\
  "Transcripts%2Fcall.mp3" <> "" /\
  startswith (lower (unquote (cluster []) "Transcripts%2Fcall.mp3")) "transcripts/" = true /\
  exists s',
    handle_event deployment (cluster []) (Ok event) initial_state
    = (Ok {| code := 200;
             body := [("status", JStr "ignored");
                      ("reason", JStr "transcript artifacts are not ingested")] |}, s') /\
    requests (trace s') = [].
Proof.
  cbv zeta.
  assert (json_truthy (ce_data (notification "audio-inbox" "Transcripts%2Fcall.mp3")) = true)
    as H1 by (by vm_compute).
  assert (forall now, exists event_time,
     locate now (ce_data (notification "audio-inbox" "Transcripts%2Fcall.mp3"))
     = Ok (JStr "audio-inbox", JStr "Transcripts%2Fcall.mp3", event_time))
    as H2 by (intros now; eexists; by vm_compute).
  assert ("Transcripts%2Fcall.mp3" <> "") as H3 by done.
  assert (startswith (lower (unquote (cluster []) "Transcripts%2Fcall.mp3")) "transcripts/"
          = true) as H4 by (by vm_compute).
  conj; [done..|].
  destruct (transcript_artifacts_ignored deployment (cluster [])
              (notification "audio-inbox" "Transcripts%2Fcall.mp3")
              "Transcripts%2Fcall.mp3" initial_state H1 H2 H3 H4)
    as (s' & E & _ & Hr & _).
  exists s'. split; [exact E|exact Hr].
Defined.

Lemma resolution_cached_after_success_witness :
  let first := _get_or_create_experiment_id deployment (cluster [listed_experiment])
                 initial_state in
  first.1 = Ok (JStr "experiment-7") /\
  json_truthy (JStr "experiment-7") = true /\
  _get_or_create_experiment_id deployment (cluster [listed_experiment]) first.2
  = (Ok (JStr "experiment-7"), first.2).
Proof.
  cbv zeta.
  assert ((_get_or_create_experiment_id deployment (cluster [listed_experiment])
             initial_state).1 = Ok (JStr "experiment-7")) as H1 by (by vm_compute).
  assert (json_truthy (JStr "experiment-7") = true) as H2 by done.
  conj; [done..|].
  destruct (resolution_cached_after_success deployment (cluster [listed_experiment]))
    as (Hexperiment & _).
  assert (_get_or_create_experiment_id deployment (cluster [listed_experiment]) initial_state
          = (Ok (JStr "experiment-7"),
             (_get_or_create_experiment_id deployment (cluster [listed_experiment])
                initial_state).2)) as E by (rewrite <- H1; apply surjective_pairing).
  destruct (Hexperiment _ _ _ E H2) as (_ & Hagain & _). exact Hagain.
Defined.

Lemma experiment_without_id_is_not_cached_witness :
  let env := cluster [JDict experiment_without_id] in
  let reply := answer (obj [("experiments", JList [JDict experiment_without_id])]) in
  json_truthy (cached_experiment_id initial_state) = false /\
  send env (trace initial_state) (current_session deployment initial_state)
    (kfp_request_of deployment env "GET" "/apis/v2beta1/experiments"
       (experiment_list_params deployment env) None None) = Ok reply /\
  status_code reply < 400 /\
  reply_text reply <> "" /\
  reply_json reply
  = Some (JDict (list_to_map [("experiments", JList [JDict experiment_without_id])])) /\
  (list_to_map [("experiments", JList [JDict experiment_without_id])]
     : gmap string json) !! "experiments"
  = Some (JList [JDict experiment_without_id]) /\
  experiment_without_id !! "experiment_id" = None /\
  exists s1,
    _get_or_create_experiment_id deployment env initial_state = (Ok JNull, s1) /\
    cached_experiment_id s1 = JNull.
Proof.
  cbv zeta.
  assert (json_truthy (cached_experiment_id initial_state) = false) as H1 by done.
  assert (send (cluster [JDict experiment_without_id]) (trace initial_state)
            (current_session deployment initial_state)
            (kfp_request_of deployment (cluster [JDict experiment_without_id]) "GET"
               "/apis/v2beta1/experiments"
               (experiment_list_params deployment (cluster [JDict experiment_without_id]))
               None None)
          = Ok (answer (obj [("experiments", JList [JDict experiment_without_id])])))
    as H2 by (by vm_compute).
  assert (status_code (answer (obj [("experiments", JList [JDict experiment_without_id])]))
          < 400) as H3 by (by vm_compute).
  assert (reply_text (answer (obj [("experiments", JList [JDict experiment_without_id])]))
          <> "") as H4 by done.
  assert (reply_json (answer (obj [("experiments", JList [JDict experiment_without_id])]))
          = Some (JDict (list_to_map
                           [("experiments", JList [JDict experiment_without_id])])))
    as H5 by done.
  assert ((list_to_map [("experiments", JList [JDict experiment_without_id])]
             : gmap string json) !! "experiments"
          = Some (JList [JDict experiment_without_id])) as H6 by (by vm_compute).
  assert (experiment_without_id !! "experiment_id" = None) as H7 by (by vm_compute).
  conj; [done..|].
  destruct (experiment_without_id_is_not_cached deployment
              (cluster [JDict experiment_without_id]) initial_state _ _ _ _
              H1 H2 H3 H4 H5 H6 H7) as (s1 & E & Hc & _).
  exists s1. split; [exact E|exact Hc].
Defined.

End AudioEventHandlerFacts.
